(** * apple-vision-quest: the API-key encryption helper

    A shallow embedding of [src/lib/crypto.ts] and of the [useAPIKeys] hook
    that stores API keys encrypted under a password, together with the
    platform functions they call ([btoa], [atob], [String.fromCharCode],
    [TextEncoder], [TextDecoder], [crypto.getRandomValues],
    [crypto.subtle]).

    Conventions.
    - A JavaScript string is the list of its UTF-16 code units, each a
      number below 65536, kept in [N].
    - A [Uint8Array] is a [list byte].
    - A JavaScript number that is not an index or a byte (the [usageCount]
      of a key) is an IEEE 754 double, [spec_float] with 53 bits of
      precision.
    - An [async] function is a computation in the monad [M]: it reads and
      writes the [World] (random source, clock, [localStorage], React state,
      toasts) and either returns or throws.
    - The key-derivation function and the cipher behind [crypto.subtle] are
      not code of the repository: they are the fields of a record
      [Primitives], over which the embedding is parametric. *)

From Stdlib Require Import NArith ZArith List Strings.Byte String Ascii Lia Bool.
From Stdlib Require Import Floats.SpecFloat.
From stdpp Require Import base option gmap.
Import ListNotations.

Local Open Scope N_scope.

(** ** JavaScript values *)

(** A string: its UTF-16 code units. *)
Definition jsstring := list N.

(** A string literal of the source, all of whose characters are ASCII. *)
Definition js (s : string) : jsstring :=
  map N_of_ascii (list_ascii_of_string s).

(** What a JavaScript function throws. The message of a [RangeError] is the
    engine's own and is not kept. *)
Inductive exn :=
| DOMException (name : string)
| Error (message : string)
| RangeError.

(** Completion of a call: a value or a thrown exception. *)
Inductive Outcome (A : Type) :=
| Ok (a : A)
| Throw (e : exn).
Arguments Ok {A} a.
Arguments Throw {A} e.

(** [ToUint8]: the conversion applied to each number stored in a
    [Uint8Array]. *)
Definition ToUint8 (n : N) : byte :=
  match Byte.of_N (n mod 256) with
  | Some b => b
  | None => x00
  end.

(** [new Uint8Array(numbers)] *)
Definition Uint8Array_from (numbers : list N) : list byte :=
  map ToUint8 numbers.

(** The string [String.fromCharCode(c1, ..., cn)] returns when the engine
    accepts the call: one code unit per argument, each argument through
    [ToUint16]. The call itself, which throws when there are too many
    arguments, is [String_fromCharCode_apply] below. *)
Definition String_fromCharCode (codes : list N) : jsstring :=
  map (fun c => c mod 65536) codes.

(** The numbers a [Uint8Array] spreads into. *)
Definition spread (a : list byte) : list N := map Byte.to_N a.

(** [s.split('')]: the one-unit strings of [s]. *)
Definition split_empty (s : jsstring) : list jsstring :=
  map (fun u => [u]) s.

(** [c.charCodeAt(0)] ([NaN] when [c] is empty, which [ToUint8] maps to 0
    like the number 0). *)
Definition charCodeAt0 (c : jsstring) : N :=
  match c with
  | u :: _ => u
  | [] => 0
  end.

(** ** Base64: [btoa] and [atob] (HTML, forgiving-base64) *)

Definition b64_alphabet : jsstring :=
  js "ABCDEFGHIJKLMNOPQRSTUVWXYZabcdefghijklmnopqrstuvwxyz0123456789+/".

Definition pad_char : N := 61.

(** The character of a 6-bit value. *)
Definition enc6 (v : N) : N := nth (N.to_nat v) b64_alphabet 0.

(** The 6-bit value of a character of the alphabet. *)
Definition dec6 (c : N) : option N :=
  if (65 <=? c) && (c <=? 90) then Some (c - 65)
  else if (97 <=? c) && (c <=? 122) then Some (c - 71)
  else if (48 <=? c) && (c <=? 57) then Some (c + 4)
  else if c =? 43 then Some 62
  else if c =? 47 then Some 63
  else None.

(** Three bytes give four characters; a last group of one or two bytes is
    completed with [=]. *)
Fixpoint b64enc (l : list N) : jsstring :=
  match l with
  | [] => []
  | [x] => [enc6 (x / 4); enc6 ((x mod 4) * 16); pad_char; pad_char]
  | [x; y] =>
      [enc6 (x / 4); enc6 ((x mod 4) * 16 + y / 16);
       enc6 ((y mod 16) * 4); pad_char]
  | x :: y :: z :: r =>
      enc6 (x / 4) :: enc6 ((x mod 4) * 16 + y / 16)
      :: enc6 ((y mod 16) * 4 + z / 64) :: enc6 (z mod 64) :: b64enc r
  end.

(** [btoa(s)]: throws when a code unit is above 0xFF. *)
Definition btoa (s : jsstring) : Outcome jsstring :=
  if forallb (fun c => c <=? 255) s then Ok (b64enc s)
  else Throw (DOMException "InvalidCharacterError").

Definition is_ascii_whitespace (c : N) : bool :=
  (c =? 9) || (c =? 10) || (c =? 12) || (c =? 13) || (c =? 32).

(** Removes one or two [=] at the end. *)
Definition strip_padding (d : jsstring) : jsstring :=
  match rev d with
  | c1 :: c2 :: r =>
      if c1 =? pad_char
      then if c2 =? pad_char then rev r else rev (c2 :: r)
      else d
  | [c1] => if c1 =? pad_char then [] else d
  | [] => d
  end.

Fixpoint sextets_of (d : jsstring) : option (list N) :=
  match d with
  | [] => Some []
  | c :: r =>
      match dec6 c, sextets_of r with
      | Some v, Some vs => Some (v :: vs)
      | _, _ => None
      end
  end.

(** Four 6-bit values give three bytes; of a last group of two (three)
    values the last 4 (2) bits are dropped. *)
Fixpoint b64dec (vs : list N) : list N :=
  match vs with
  | a :: b :: c :: d :: r =>
      (a * 4 + b / 16) :: ((b mod 16) * 16 + c / 4) :: ((c mod 4) * 64 + d)
      :: b64dec r
  | [a; b; c] => [a * 4 + b / 16; (b mod 16) * 16 + c / 4]
  | [a; b] => [a * 4 + b / 16]
  | _ => []
  end.

(** What [atob] does once white space is removed: padding is dropped from
    a length that is a multiple of 4, a length of 1 modulo 4 and a character
    outside the alphabet are refused, the rest is regrouped. *)
Definition atob_tail (d : jsstring) : Outcome jsstring :=
  let d := if N.of_nat (length d) mod 4 =? 0 then strip_padding d else d in
  if N.of_nat (length d) mod 4 =? 1
  then Throw (DOMException "InvalidCharacterError")
  else
    match sextets_of d with
    | Some vs => Ok (b64dec vs)
    | None => Throw (DOMException "InvalidCharacterError")
    end.

(** [atob(s)] *)
Definition atob (s : jsstring) : Outcome jsstring :=
  atob_tail (List.filter (fun c => negb (is_ascii_whitespace c)) s).

(** ** UTF-8: [TextEncoder] and [TextDecoder] (WHATWG Encoding) *)

Definition is_high_surrogate (u : N) : bool := (0xD800 <=? u) && (u <=? 0xDBFF).
Definition is_low_surrogate (u : N) : bool := (0xDC00 <=? u) && (u <=? 0xDFFF).

(** The scalar values of a string: a surrogate pair is one code point, a
    surrogate on its own is replaced by U+FFFD. *)
Fixpoint code_points (s : jsstring) : list N :=
  match s with
  | [] => []
  | u :: rest =>
      if is_high_surrogate u then
        match rest with
        | v :: rest' =>
            if is_low_surrogate v
            then (0x10000 + (u - 0xD800) * 1024 + (v - 0xDC00)) :: code_points rest'
            else 0xFFFD :: code_points rest
        | [] => [0xFFFD]
        end
      else if is_low_surrogate u then 0xFFFD :: code_points rest
      else u :: code_points rest
  end.

Definition utf8_of_code_point (cp : N) : list N :=
  if cp <? 0x80 then [cp]
  else if cp <? 0x800 then [0xC0 + cp / 64; 0x80 + cp mod 64]
  else if cp <? 0x10000 then
    [0xE0 + cp / 4096; 0x80 + (cp / 64) mod 64; 0x80 + cp mod 64]
  else
    [0xF0 + cp / 262144; 0x80 + (cp / 4096) mod 64;
     0x80 + (cp / 64) mod 64; 0x80 + cp mod 64].

(** [new TextEncoder().encode(s)] *)
Definition TextEncoder_encode (s : jsstring) : list byte :=
  Uint8Array_from (flat_map utf8_of_code_point (code_points s)).

(** State of the decoder inside a multi-byte sequence: the code point so
    far, the continuation bytes still needed, and the bounds of the next
    byte. *)
Definition utf8_state : Type := N * nat * N * N.

(** A byte met outside a sequence: the code points it emits and the state
    it opens. *)
Definition utf8_lead (b : N) : list N * option utf8_state :=
  if b <=? 0x7F then ([b], None)
  else if (0xC2 <=? b) && (b <=? 0xDF) then ([], Some (b mod 32, 1%nat, 0x80, 0xBF))
  else if (0xE0 <=? b) && (b <=? 0xEF) then
    ([], Some (b mod 16, 2%nat,
               if b =? 0xE0 then 0xA0 else 0x80,
               if b =? 0xED then 0x9F else 0xBF))
  else if (0xF0 <=? b) && (b <=? 0xF4) then
    ([], Some (b mod 8, 3%nat,
               if b =? 0xF0 then 0x90 else 0x80,
               if b =? 0xF4 then 0x8F else 0xBF))
  else ([0xFFFD], None).

(** The decoder with replacement: a byte that cannot continue a sequence
    ends it with U+FFFD and is read again as a lead byte; a sequence cut by
    the end of the input gives U+FFFD. *)
Fixpoint utf8_decode (st : option utf8_state) (bs : list N) : list N :=
  match bs with
  | [] => match st with None => [] | Some _ => [0xFFFD] end
  | b :: r =>
      match st with
      | None => fst (utf8_lead b) ++ utf8_decode (snd (utf8_lead b)) r
      | Some (cp, need, lo, hi) =>
          if (lo <=? b) && (b <=? hi) then
            match need with
            | S (S n) => utf8_decode (Some (cp * 64 + b mod 64, S n, 0x80, 0xBF)) r
            | _ => (cp * 64 + b mod 64) :: utf8_decode None r
            end
          else
            0xFFFD :: fst (utf8_lead b) ++ utf8_decode (snd (utf8_lead b)) r
      end
  end.

(** A byte order mark at the start is not part of the text. *)
Definition strip_bom (bs : list N) : list N :=
  match bs with
  | 0xEF :: 0xBB :: 0xBF :: r => r
  | _ => bs
  end.

Definition utf16_of_code_point (cp : N) : jsstring :=
  if cp <? 0x10000 then [cp]
  else [0xD800 + (cp - 0x10000) / 1024; 0xDC00 + (cp - 0x10000) mod 1024].

(** [new TextDecoder().decode(bytes)] *)
Definition TextDecoder_decode (bytes : list byte) : jsstring :=
  flat_map utf16_of_code_point (utf8_decode None (strip_bom (spread bytes))).

(** A Unicode scalar value: a code point that is not a surrogate. *)
Definition is_scalar (cp : N) : Prop :=
  cp < 0x110000 /\ (cp < 0xD800 \/ 0xDFFF < cp).

(** A string whose code units are below 65536 and whose surrogates all
    stand in pairs, a high one followed by a low one. *)
Fixpoint well_formed (s : jsstring) : bool :=
  match s with
  | [] => true
  | u :: rest =>
      if is_high_surrogate u then
        match rest with
        | v :: rest' => is_low_surrogate v && well_formed rest'
        | [] => false
        end
      else if is_low_surrogate u then false
      else (u <? 0x10000) && well_formed rest
  end.

(** [s.toWellFormed()]: the string with every surrogate that is not part of
    a pair replaced by U+FFFD. *)
Fixpoint toWellFormed (s : jsstring) : jsstring :=
  match s with
  | [] => []
  | u :: rest =>
      if is_high_surrogate u then
        match rest with
        | v :: rest' =>
            if is_low_surrogate v
            then u :: v :: toWellFormed rest'
            else 0xFFFD :: toWellFormed rest
        | [] => [0xFFFD]
        end
      else if is_low_surrogate u then 0xFFFD :: toWellFormed rest
      else u :: toWellFormed rest
  end.

(** The string without the U+FEFF it starts with, if it starts with one. *)
Definition without_bom (s : jsstring) : jsstring :=
  match s with
  | u :: rest => if u =? 0xFEFF then rest else s
  | [] => []
  end.

(** ** Numbers *)

(** A JavaScript number: an IEEE 754 double (binary64). *)
Definition number : Type := spec_float.

(** The number an integer literal denotes. *)
Definition Number_of_Z (n : Z) : number := binary_normalize 53 1024 n 0 false.

(** [x + y] on numbers: the sum rounded to the nearest double, ties to
    even. *)
Definition Number_add (x y : number) : number := SFadd 53 1024 x y.

(** ** Numbers as text *)

(** A character among [0-9a-f]. *)
Definition is_lower_hex_digit (c : N) : bool :=
  ((48 <=? c) && (c <=? 57)) || ((97 <=? c) && (c <=? 102)).

Definition hex_digit (d : N) : N := nth (N.to_nat d) (js "0123456789abcdef") 0.

Fixpoint radix16 (fuel : nat) (n : N) (acc : jsstring) : jsstring :=
  match fuel with
  | O => acc
  | S fuel' =>
      if n / 16 =? 0 then hex_digit (n mod 16) :: acc
      else radix16 fuel' (n / 16) (hex_digit (n mod 16) :: acc)
  end.

(** [n.toString(16)] for a non-negative integer. *)
Definition Number_toString16 (n : N) : jsstring :=
  radix16 (S (N.to_nat (N.log2 n))) n [].

(** [s.padStart(targetLength, padString)] *)
Definition padStart (s : jsstring) (targetLength : nat) (padString : jsstring) : jsstring :=
  if (targetLength <=? length s)%nat then s
  else
    let fill := (targetLength - length s)%nat in
    firstn fill (concat (repeat padString fill)) ++ s.

(** [parts.join('')] *)
Definition join_empty (parts : list jsstring) : jsstring := concat parts.

(** ** Data of the application ([src/lib/crypto.ts], [src/lib/api-keys.ts]) *)

Module EncryptedData.
Record t := mk { encrypted : jsstring; iv : jsstring; salt : jsstring }.
End EncryptedData.

Inductive Provider := openai | anthropic | google | custom.

Module Metadata.
Record t := mk {
  model : option jsstring;
  endpoint : option jsstring;
  organization : option jsstring }.
End Metadata.

Module APIKey.
Record t := mk {
  id : jsstring;
  name : jsstring;
  provider : Provider;
  encryptedKey : EncryptedData.t;
  isActive : bool;
  createdAt : jsstring;
  lastUsed : option jsstring;
  usageCount : number;
  metadata : option Metadata.t }.
End APIKey.

Module APIKeyFormData.
Record t := mk {
  name : jsstring;
  provider : Provider;
  apiKey : jsstring;
  model : option jsstring;
  endpoint : option jsstring;
  organization : option jsstring }.
End APIKeyFormData.

Module User.
Record t := mk { id : jsstring }.
End User.

Module Toast.
Record t := mk {
  variant : option string;
  title : string;
  description : jsstring }.
End Toast.

(** ** The world of a call and the monad of effects *)

(** What the functions read and write besides their arguments.
    - [entropy], [cursor]: the source of [crypto.getRandomValues], a tape of
      bytes and the position of the next unread one;
    - [clock]: the text [new Date().toISOString()] gives;
    - [localStorage]: the value under each key is the list that was
      serialised into it; [setItem_fits] tells whether a write is within the
      quota of the origin;
    - [user], [apiKeys], [isLoading]: the state the hook [useAPIKeys] sees;
    - [toasts], [console]: what was shown and logged, most recent first;
    - [max_arguments]: the number of arguments the engine accepts in one
      call (65536 in JavaScriptCore; other engines have other limits). *)
Record World := mkWorld {
  entropy : nat -> byte;
  cursor : nat;
  clock : jsstring;
  localStorage : gmap jsstring (list APIKey.t);
  setItem_fits : jsstring -> list APIKey.t -> bool;
  user : option User.t;
  apiKeys : list APIKey.t;
  isLoading : bool;
  toasts : list Toast.t;
  console : list (string * exn);
  max_arguments : N }.

Definition M (A : Type) : Type := World -> Outcome A * World.

Definition ret {A} (a : A) : M A := fun w => (Ok a, w).

Definition bind {A B} (m : M A) (k : A -> M B) : M B :=
  fun w =>
    match m w with
    | (Ok a, w') => k a w'
    | (Throw e, w') => (Throw e, w')
    end.

Definition throw {A} (e : exn) : M A := fun w => (Throw e, w).

(** A call whose completion does not involve the world. *)
Definition lift {A} (o : Outcome A) : M A := fun w => (o, w).

(** [try { body } catch (error) { handler }] *)
Definition try_catch {A} (body : M A) (handler : exn -> M A) : M A :=
  fun w =>
    match body w with
    | (Ok a, w') => (Ok a, w')
    | (Throw e, w') => handler e w'
    end.

(** [try { body } finally { cleanup }], for a cleanup that does not return. *)
Definition try_finally {A} (body : M A) (cleanup : M unit) : M A :=
  fun w =>
    match body w with
    | (o, w') =>
        match cleanup w' with
        | (Ok _, w'') => (o, w'')
        | (Throw e, w'') => (Throw e, w'')
        end
    end.

Notation "'let*' x ':=' m 'in' k" := (bind m (fun x => k))
  (at level 10, x name, m at level 100, k at level 200).

Fixpoint mapM {A B} (f : A -> M B) (l : list A) : M (list B) :=
  match l with
  | [] => ret []
  | a :: r =>
      let* b := f a in
      let* bs := mapM f r in
      ret (b :: bs)
  end.

(** [new Uint8Array(length)] *)
Definition Uint8Array_new (length : nat) : list byte := repeat x00 length.

(** The next [n] bytes of the random source, and the world once they are
    read. *)
Definition tape (w : World) (n : nat) : list byte :=
  map (entropy w) (seq (cursor w) n).

Definition advance (n : nat) (w : World) : World :=
  mkWorld (entropy w) (cursor w + n)%nat (clock w)
          (localStorage w) (setItem_fits w) (user w) (apiKeys w)
          (isLoading w) (toasts w) (console w) (max_arguments w).

(** [crypto.getRandomValues(array)]: fills the array from the source of
    randomness; an array of more than 65536 bytes is refused. *)
Definition getRandomValues (array : list byte) : M (list byte) :=
  fun w =>
    if 65536 <? N.of_nat (length array)
    then (Throw (DOMException "QuotaExceededError"), w)
    else (Ok (tape w (length array)), advance (length array) w).

(** [new Date().toISOString()] *)
Definition Date_toISOString : M jsstring := fun w => (Ok (clock w), w).

(** Whether the engine accepts a call with [n] arguments. *)
Definition accepts (w : World) (n : nat) : bool :=
  N.of_nat n <=? max_arguments w.

(** [String.fromCharCode(...array)]: every element of the array is an
    argument of the call, and a call with more arguments than the engine
    accepts throws a [RangeError]. *)
Definition String_fromCharCode_apply (array : list byte) : M jsstring :=
  fun w =>
    if accepts w (length array)
    then (Ok (String_fromCharCode (spread array)), w)
    else (Throw RangeError, w).

(** [btoa(String.fromCharCode(...array))], the encoding [encryptData]
    applies to the ciphertext, the IV and the salt. *)
Definition base64_of_bytes (array : list byte) : M jsstring :=
  let* binary := String_fromCharCode_apply array in
  lift (btoa binary).

(** ** The cryptographic primitives behind [crypto.subtle]

    The key-derivation function and the cipher are supplied by the browser.
    A derived AES key is not extractable, so its material is a type of its
    own, [secret]; the program only passes it on.
    - [PBKDF2 hash password salt iterations length]: the key of [length]
      bits derived with PBKDF2 over HMAC with [hash];
    - [AES_GCM_encrypt key iv plaintext]: the ciphertext followed by its
      128-bit tag, no additional data;
    - [AES_GCM_decrypt key iv ciphertext]: the plaintext, or [None] when the
      tag does not verify. *)

Inductive HashAlgorithm := SHA_1 | SHA_256 | SHA_384 | SHA_512.

Record Primitives := {
  secret : Type;
  PBKDF2 : HashAlgorithm -> list byte -> list byte -> N -> N -> secret;
  AES_GCM_encrypt : secret -> list byte -> list byte -> list byte;
  AES_GCM_decrypt : secret -> list byte -> list byte -> option (list byte) }.

Module Usage.
Inductive t :=
| encrypt | decrypt | sign | verify
| deriveKey | deriveBits | wrapKey | unwrapKey.

Definition eqb (a b : t) : bool :=
  match a, b with
  | encrypt, encrypt | decrypt, decrypt | sign, sign | verify, verify
  | deriveKey, deriveKey | deriveBits, deriveBits
  | wrapKey, wrapKey | unwrapKey, unwrapKey => true
  | _, _ => false
  end.

Definition mem (u : t) (l : list t) : bool := existsb (eqb u) l.
End Usage.

(** Algorithm parameters, as the object literals of the source. *)
Module Pbkdf2Params.
Record t := mk { name : string; salt : list byte; iterations : N; hash : string }.
End Pbkdf2Params.

Module AesDerivedKeyParams.
Record t := mk { name : string; length : N }.
End AesDerivedKeyParams.

Module AesGcmParams.
Record t := mk { name : string; iv : list byte }.
End AesGcmParams.

Definition hash_of_name (h : string) : option HashAlgorithm :=
  if String.eqb h "SHA-1" then Some SHA_1
  else if String.eqb h "SHA-256" then Some SHA_256
  else if String.eqb h "SHA-384" then Some SHA_384
  else if String.eqb h "SHA-512" then Some SHA_512
  else None.

Section WebCrypto.
Context (P : Primitives).

(** What a [CryptoKey] holds: the bytes imported for PBKDF2, or the
    material of a derived AES-GCM key of some length. *)
Inductive KeyHandle :=
| Pbkdf2Key (password : list byte)
| AesGcmKey (length : N) (material : secret P).

Record CryptoKey := mkCryptoKey {
  extractable : bool;
  usages : list Usage.t;
  handle : KeyHandle }.

(** [crypto.subtle.importKey(format, keyData, algorithm, extractable,
    usages)], for the raw import of a PBKDF2 password. *)
Definition subtle_importKey (format : string) (keyData : list byte)
    (algorithm : string) (extractable : bool) (usages : list Usage.t)
  : Outcome CryptoKey :=
  if negb (String.eqb algorithm "PBKDF2") then Throw (DOMException "NotSupportedError")
  else if negb (String.eqb format "raw") then Throw (DOMException "NotSupportedError")
  else if negb (forallb (fun u => Usage.mem u [Usage.deriveKey; Usage.deriveBits]) usages)
    then Throw (DOMException "SyntaxError")
  else if extractable then Throw (DOMException "SyntaxError")
  else if (List.length usages =? 0)%nat then Throw (DOMException "SyntaxError")
  else Ok (mkCryptoKey false usages (Pbkdf2Key keyData)).

(** [crypto.subtle.deriveKey(algorithm, baseKey, derivedKeyType,
    extractable, usages)], for PBKDF2 deriving an AES-GCM key. *)
Definition subtle_deriveKey (algorithm : Pbkdf2Params.t) (baseKey : CryptoKey)
    (derivedKeyType : AesDerivedKeyParams.t) (extractable : bool)
    (usages : list Usage.t) : Outcome CryptoKey :=
  if negb (String.eqb (Pbkdf2Params.name algorithm) "PBKDF2")
    then Throw (DOMException "NotSupportedError")
  else if negb (String.eqb (AesDerivedKeyParams.name derivedKeyType) "AES-GCM")
    then Throw (DOMException "NotSupportedError")
  else
    match hash_of_name (Pbkdf2Params.hash algorithm), handle baseKey with
    | None, _ => Throw (DOMException "NotSupportedError")
    | Some _, AesGcmKey _ _ => Throw (DOMException "InvalidAccessError")
    | Some h, Pbkdf2Key password =>
        let length := AesDerivedKeyParams.length derivedKeyType in
        if negb (Usage.mem Usage.deriveKey (WebCrypto.usages baseKey))
          then Throw (DOMException "InvalidAccessError")
        else if negb ((length =? 128) || (length =? 192) || (length =? 256))
          then Throw (DOMException "OperationError")
        else if Pbkdf2Params.iterations algorithm =? 0
          then Throw (DOMException "OperationError")
        else if negb (forallb (fun u => Usage.mem u
                  [Usage.encrypt; Usage.decrypt; Usage.wrapKey; Usage.unwrapKey]) usages)
          then Throw (DOMException "SyntaxError")
        else if (List.length usages =? 0)%nat
          then Throw (DOMException "SyntaxError")
        else
          Ok (mkCryptoKey extractable usages
                (AesGcmKey length
                   (PBKDF2 P h password (Pbkdf2Params.salt algorithm)
                      (Pbkdf2Params.iterations algorithm) length)))
    end.

(** [crypto.subtle.encrypt(algorithm, key, data)] for AES-GCM. *)
Definition subtle_encrypt (algorithm : AesGcmParams.t) (key : CryptoKey)
    (data : list byte) : Outcome (list byte) :=
  if negb (String.eqb (AesGcmParams.name algorithm) "AES-GCM")
    then Throw (DOMException "NotSupportedError")
  else
    match handle key with
    | Pbkdf2Key _ => Throw (DOMException "InvalidAccessError")
    | AesGcmKey _ material =>
        if negb (Usage.mem Usage.encrypt (usages key))
          then Throw (DOMException "InvalidAccessError")
        else Ok (AES_GCM_encrypt P material (AesGcmParams.iv algorithm) data)
    end.

(** [crypto.subtle.decrypt(algorithm, key, data)] for AES-GCM. *)
Definition subtle_decrypt (algorithm : AesGcmParams.t) (key : CryptoKey)
    (data : list byte) : Outcome (list byte) :=
  if negb (String.eqb (AesGcmParams.name algorithm) "AES-GCM")
    then Throw (DOMException "NotSupportedError")
  else
    match handle key with
    | Pbkdf2Key _ => Throw (DOMException "InvalidAccessError")
    | AesGcmKey _ material =>
        if negb (Usage.mem Usage.decrypt (usages key))
          then Throw (DOMException "InvalidAccessError")
        else
          match AES_GCM_decrypt P material (AesGcmParams.iv algorithm) data with
          | Some plaintext => Ok plaintext
          | None => Throw (DOMException "OperationError")
          end
    end.

(** ** [src/lib/crypto.ts] *)

Definition ENCRYPTION_ALGORITHM : string := "AES-GCM".
Definition KEY_LENGTH : N := 256.
Definition IV_LENGTH : nat := 12.
Definition SALT_LENGTH : nat := 16.

(** [deriveKey(password, salt)] *)
Definition deriveKey (password : jsstring) (salt : list byte) : M CryptoKey :=
  let* baseKey :=
    lift (subtle_importKey "raw" (TextEncoder_encode password) "PBKDF2" false
            [Usage.deriveBits; Usage.deriveKey]) in
  lift (subtle_deriveKey
          (Pbkdf2Params.mk "PBKDF2" salt 100000 "SHA-256")
          baseKey
          (AesDerivedKeyParams.mk ENCRYPTION_ALGORITHM KEY_LENGTH)
          false
          [Usage.encrypt; Usage.decrypt]).

(** [encryptData(data, password)] *)
Definition encryptData (data password : jsstring) : M EncryptedData.t :=
  let* salt := getRandomValues (Uint8Array_new SALT_LENGTH) in
  let* iv := getRandomValues (Uint8Array_new IV_LENGTH) in
  let* key := deriveKey password salt in
  let encodedData := TextEncoder_encode data in
  let* encrypted :=
    lift (subtle_encrypt (AesGcmParams.mk ENCRYPTION_ALGORITHM iv) key encodedData) in
  let* encrypted64 := base64_of_bytes encrypted in
  let* iv64 := base64_of_bytes iv in
  let* salt64 := base64_of_bytes salt in
  ret (EncryptedData.mk encrypted64 iv64 salt64).

(** [new Uint8Array(atob(field).split('').map(c => c.charCodeAt(0)))] *)
Definition decode_field (field : jsstring) : M (list byte) :=
  let* binary := lift (atob field) in
  ret (Uint8Array_from (map charCodeAt0 (split_empty binary))).

(** [decryptData(encryptedData, password)] *)
Definition decryptData (encryptedData : EncryptedData.t) (password : jsstring)
  : M jsstring :=
  try_catch
    (let* salt := decode_field (EncryptedData.salt encryptedData) in
     let* iv := decode_field (EncryptedData.iv encryptedData) in
     let* encrypted := decode_field (EncryptedData.encrypted encryptedData) in
     let* key := deriveKey password iv in
     let* decrypted :=
       lift (subtle_decrypt (AesGcmParams.mk ENCRYPTION_ALGORITHM iv) key encrypted) in
     ret (TextDecoder_decode decrypted))
    (fun error => throw (Error "Failed to decrypt data. Check your password.")).

(** What [decryptData] throws. *)
Definition decrypt_error : exn :=
  Error "Failed to decrypt data. Check your password.".

(** [generateSecureId()] *)
Definition generateSecureId : M jsstring :=
  let* array := getRandomValues (Uint8Array_new 16) in
  ret (join_empty
         (map (fun byte => padStart (Number_toString16 (Byte.to_N byte)) 2 (js "0"))
              array)).

End WebCrypto.

(** ** The hook [useAPIKeys] *)

Definition STORAGE_KEY : jsstring := js "gapalytics_api_keys".

(** The template literal [`${STORAGE_KEY}_${user.id}`]. *)
Definition storage_key (u : User.t) : jsstring :=
  STORAGE_KEY ++ js "_" ++ User.id u.

Definition set_storage (key : jsstring) (keys : list APIKey.t) (w : World) : World :=
  mkWorld (entropy w) (cursor w) (clock w) (<[key := keys]> (localStorage w))
          (setItem_fits w) (user w) (apiKeys w) (isLoading w) (toasts w) (console w) (max_arguments w).

Definition set_apiKeys (keys : list APIKey.t) (w : World) : World :=
  mkWorld (entropy w) (cursor w) (clock w) (localStorage w)
          (setItem_fits w) (user w) keys (isLoading w) (toasts w) (console w) (max_arguments w).

(** [localStorage.setItem(key, JSON.stringify(keys))] *)
Definition localStorage_setItem (key : jsstring) (keys : list APIKey.t) : M unit :=
  fun w =>
    if setItem_fits w key keys then (Ok tt, set_storage key keys w)
    else (Throw (DOMException "QuotaExceededError"), w).

Definition setApiKeys (keys : list APIKey.t) : M unit :=
  fun w => (Ok tt, set_apiKeys keys w).

Definition set_isLoading (b : bool) (w : World) : World :=
  mkWorld (entropy w) (cursor w) (clock w) (localStorage w)
          (setItem_fits w) (user w) (apiKeys w) b (toasts w) (console w)
          (max_arguments w).

Definition add_toast (t : Toast.t) (w : World) : World :=
  mkWorld (entropy w) (cursor w) (clock w) (localStorage w)
          (setItem_fits w) (user w) (apiKeys w) (isLoading w)
          (t :: toasts w) (console w) (max_arguments w).

Definition add_console (label : string) (error : exn) (w : World) : World :=
  mkWorld (entropy w) (cursor w) (clock w) (localStorage w)
          (setItem_fits w) (user w) (apiKeys w) (isLoading w)
          (toasts w) ((label, error) :: console w) (max_arguments w).

Definition setIsLoading (b : bool) : M unit :=
  fun w => (Ok tt, set_isLoading b w).

Definition toast (t : Toast.t) : M unit :=
  fun w => (Ok tt, add_toast t w).

Definition console_error (label : string) (error : exn) : M unit :=
  fun w => (Ok tt, add_console label error w).

(** The values the callbacks close over. *)
Definition current_user : M (option User.t) := fun w => (Ok (user w), w).
Definition current_apiKeys : M (list APIKey.t) := fun w => (Ok (apiKeys w), w).

(** [saveApiKeys(keys)] *)
Definition saveApiKeys (keys : list APIKey.t) : M unit :=
  let* user := current_user in
  match user with
  | Some u =>
      let* _ := localStorage_setItem (storage_key u) keys in
      setApiKeys keys
  | None => ret tt
  end.

(** What [addAPIKey] returns: [{ success: true, key }] or
    [{ success: false, error }]. *)
Inductive AddResult :=
| Added (key : APIKey.t)
| NotAdded (error : exn).

(** The toasts of [addAPIKey] and [decryptAPIKey]. *)
Definition added_toast (name : jsstring) : Toast.t :=
  Toast.mk None "API Key Added"
    (name ++ js " has been successfully added and encrypted.").

Definition add_failed_toast : Toast.t :=
  Toast.mk (Some "destructive"%string) "Failed to Add API Key"
    (js "There was an error encrypting and storing your API key.").

Definition decrypt_failed_toast : Toast.t :=
  Toast.mk (Some "destructive"%string) "Decryption Failed"
    (js "Failed to decrypt API key. Check your password.").

Section UseAPIKeys.
Context (P : Primitives).

(** [addAPIKey(formData, password)] *)
Definition addAPIKey (formData : APIKeyFormData.t) (password : jsstring)
  : M AddResult :=
  let* apiKeys := current_apiKeys in
  try_finally
    (try_catch
       (let* _ := setIsLoading true in
        let* encryptedKey := encryptData P (APIKeyFormData.apiKey formData) password in
        let* id := generateSecureId in
        let* createdAt := Date_toISOString in
        let newKey :=
          APIKey.mk id
            (APIKeyFormData.name formData)
            (APIKeyFormData.provider formData)
            encryptedKey
            true
            createdAt
            None
            (Number_of_Z 0)
            (Some (Metadata.mk (APIKeyFormData.model formData)
                     (APIKeyFormData.endpoint formData)
                     (APIKeyFormData.organization formData))) in
        let updatedKeys := apiKeys ++ [newKey] in
        let* _ := saveApiKeys updatedKeys in
        let* _ := toast (added_toast (APIKeyFormData.name formData)) in
        ret (Added newKey))
       (fun error =>
          let* _ := console_error "Failed to add API key:" error in
          let* _ := toast add_failed_toast in
          ret (NotAdded error)))
    (setIsLoading false).

(** [k.id === keyId] *)
Definition id_is (keyId : jsstring) (k : APIKey.t) : bool :=
  bool_decide (APIKey.id k = keyId).

(** [{ ...k, lastUsed: t, usageCount: k.usageCount + 1 }] *)
Definition used_at (t : jsstring) (k : APIKey.t) : APIKey.t :=
  APIKey.mk (APIKey.id k) (APIKey.name k) (APIKey.provider k)
    (APIKey.encryptedKey k) (APIKey.isActive k) (APIKey.createdAt k)
    (Some t) (Number_add (APIKey.usageCount k) (Number_of_Z 1)) (APIKey.metadata k).

(** The same with [t] the time of the call, [new Date().toISOString()]. *)
Definition mark_used (k : APIKey.t) : M APIKey.t :=
  let* lastUsed := Date_toISOString in
  ret (used_at lastUsed k).

(** [decryptAPIKey(keyId, password)]; [None] is [null]. *)
Definition decryptAPIKey (keyId password : jsstring) : M (option jsstring) :=
  let* apiKeys := current_apiKeys in
  try_catch
    (match find (id_is keyId) apiKeys with
     | None => throw (Error "API key not found")
     | Some key =>
         let* decryptedKey := decryptData P (APIKey.encryptedKey key) password in
         let* updatedKeys :=
           mapM (fun k => if id_is keyId k then mark_used k else ret k) apiKeys in
         let* _ := saveApiKeys updatedKeys in
         ret (Some decryptedKey)
     end)
    (fun error =>
       let* _ := console_error "Failed to decrypt API key:" error in
       let* _ := toast decrypt_failed_toast in
       ret None).

End UseAPIKeys.

(** ** The other operations of [useAPIKeys] *)

(** [Partial<APIKey>]: the fields an update object holds. An optional field
    of [APIKey] can be held with the value [undefined]. *)
Module APIKeyUpdates.
Record t := mk {
  id : option jsstring;
  name : option jsstring;
  provider : option Provider;
  encryptedKey : option EncryptedData.t;
  isActive : option bool;
  createdAt : option jsstring;
  lastUsed : option (option jsstring);
  usageCount : option number;
  metadata : option (option Metadata.t) }.
End APIKeyUpdates.

(** [{ ...key, ...updates }] *)
Definition merge_updates (key : APIKey.t) (updates : APIKeyUpdates.t) : APIKey.t :=
  APIKey.mk
    (default (APIKey.id key) (APIKeyUpdates.id updates))
    (default (APIKey.name key) (APIKeyUpdates.name updates))
    (default (APIKey.provider key) (APIKeyUpdates.provider updates))
    (default (APIKey.encryptedKey key) (APIKeyUpdates.encryptedKey updates))
    (default (APIKey.isActive key) (APIKeyUpdates.isActive updates))
    (default (APIKey.createdAt key) (APIKeyUpdates.createdAt updates))
    (default (APIKey.lastUsed key) (APIKeyUpdates.lastUsed updates))
    (default (APIKey.usageCount key) (APIKeyUpdates.usageCount updates))
    (default (APIKey.metadata key) (APIKeyUpdates.metadata updates)).

Definition updated_toast : Toast.t :=
  Toast.mk None "API Key Updated" (js "Your API key has been successfully updated.").

Definition deleted_toast : Toast.t :=
  Toast.mk None "API Key Deleted" (js "Your API key has been successfully removed.").

(** [updateAPIKey(keyId, updates)] *)
Definition updateAPIKey (keyId : jsstring) (updates : APIKeyUpdates.t) : M unit :=
  let* apiKeys := current_apiKeys in
  let updatedKeys :=
    map (fun key => if id_is keyId key then merge_updates key updates else key) apiKeys in
  let* _ := saveApiKeys updatedKeys in
  toast updated_toast.

(** [deleteAPIKey(keyId)] *)
Definition deleteAPIKey (keyId : jsstring) : M unit :=
  let* apiKeys := current_apiKeys in
  let updatedKeys := List.filter (fun key => negb (id_is keyId key)) apiKeys in
  let* _ := saveApiKeys updatedKeys in
  toast deleted_toast.

(** [{ ...key, isActive: !key.isActive }] *)
Definition toggled (key : APIKey.t) : APIKey.t :=
  APIKey.mk (APIKey.id key) (APIKey.name key) (APIKey.provider key)
    (APIKey.encryptedKey key) (negb (APIKey.isActive key)) (APIKey.createdAt key)
    (APIKey.lastUsed key) (APIKey.usageCount key) (APIKey.metadata key).

(** [toggleAPIKeyStatus(keyId)] *)
Definition toggleAPIKeyStatus (keyId : jsstring) : M unit :=
  let* apiKeys := current_apiKeys in
  let updatedKeys :=
    map (fun key => if id_is keyId key then toggled key else key) apiKeys in
  saveApiKeys updatedKeys.

(** [getActiveAPIKeys()] *)
Definition getActiveAPIKeys : M (list APIKey.t) :=
  let* apiKeys := current_apiKeys in
  ret (List.filter (fun key => APIKey.isActive key) apiKeys).

(** [getAPIKeyById(keyId)]; [None] is [undefined]. *)
Definition getAPIKeyById (keyId : jsstring) : M (option APIKey.t) :=
  let* apiKeys := current_apiKeys in
  ret (find (id_is keyId) apiKeys).

(** ** The queries of [useAPIKeys] *)

Inductive QueryStatus := pending | processing | completed | failed.

(** [MultiAgentQuery]; [R] is the type of the [results] object. *)
Module MultiAgentQuery.
Record t (R : Type) := mk {
  id : jsstring;
  query : jsstring;
  selectedAgents : list jsstring;
  status : QueryStatus;
  results : R;
  createdAt : jsstring;
  completedAt : option jsstring }.
Arguments mk {R}.
Arguments id {R}.
Arguments query {R}.
Arguments selectedAgents {R}.
Arguments status {R}.
Arguments results {R}.
Arguments createdAt {R}.
Arguments completedAt {R}.
End MultiAgentQuery.

Definition QUERIES_STORAGE_KEY : jsstring := js "gapalytics_multi_queries".

(** The template literal [`${QUERIES_STORAGE_KEY}_${user.id}`]. *)
Definition queries_key (u : User.t) : jsstring :=
  QUERIES_STORAGE_KEY ++ js "_" ++ User.id u.

(** The world together with what the hook keeps of queries: the state
    [queries], and the entries of [localStorage] that hold lists of queries
    ([queries_fit] tells whether such a write is within the quota). *)
Record QueryWorld (R : Type) := mkQueryWorld {
  base : World;
  queries : list (MultiAgentQuery.t R);
  queriesStorage : gmap jsstring (list (MultiAgentQuery.t R));
  queries_fit : jsstring -> list (MultiAgentQuery.t R) -> bool }.
Arguments mkQueryWorld {R}.
Arguments base {R}.
Arguments queries {R}.
Arguments queriesStorage {R}.
Arguments queries_fit {R}.

Definition MQ (R A : Type) : Type := QueryWorld R -> Outcome A * QueryWorld R.

Definition retQ {R A} (a : A) : MQ R A := fun qw => (Ok a, qw).

Definition bindQ {R A B} (m : MQ R A) (k : A -> MQ R B) : MQ R B :=
  fun qw =>
    match m qw with
    | (Ok a, qw') => k a qw'
    | (Throw e, qw') => (Throw e, qw')
    end.

(** A computation on the world alone. *)
Definition in_world {R A} (m : M A) : MQ R A :=
  fun qw =>
    match m (base qw) with
    | (o, w') => (o, mkQueryWorld w' (queries qw) (queriesStorage qw) (queries_fit qw))
    end.

Notation "'let+' x ':=' m 'in' k" := (bindQ m (fun x => k))
  (at level 10, x name, m at level 100, k at level 200).

Fixpoint mapMQ {R A B} (f : A -> MQ R B) (l : list A) : MQ R (list B) :=
  match l with
  | [] => retQ []
  | a :: r =>
      let+ b := f a in
      let+ bs := mapMQ f r in
      retQ (b :: bs)
  end.

Section Queries.
Context {R : Type}.

Definition current_queries : MQ R (list (MultiAgentQuery.t R)) :=
  fun qw => (Ok (queries qw), qw).

(** [localStorage.setItem(key, JSON.stringify(newQueries))] *)
Definition localStorage_setQueries (key : jsstring)
    (newQueries : list (MultiAgentQuery.t R)) : MQ R unit :=
  fun qw =>
    if queries_fit qw key newQueries
    then (Ok tt,
          mkQueryWorld (base qw) (queries qw)
            (<[key := newQueries]> (queriesStorage qw)) (queries_fit qw))
    else (Throw (DOMException "QuotaExceededError"), qw).

Definition setQueries (newQueries : list (MultiAgentQuery.t R)) : MQ R unit :=
  fun qw =>
    (Ok tt, mkQueryWorld (base qw) newQueries (queriesStorage qw) (queries_fit qw)).

(** [saveQueries(newQueries)] *)
Definition saveQueries (newQueries : list (MultiAgentQuery.t R)) : MQ R unit :=
  let+ user := in_world current_user in
  match user with
  | Some u =>
      let+ _ := localStorage_setQueries (queries_key u) newQueries in
      setQueries newQueries
  | None => retQ tt
  end.

(** [createMultiAgentQuery(query, selectedAgentIds)]; [no_results] is the
    object [{}]. *)
Definition createMultiAgentQuery (no_results : R) (query : jsstring)
    (selectedAgentIds : list jsstring) : MQ R (MultiAgentQuery.t R) :=
  let+ queries := current_queries in
  let+ id := in_world generateSecureId in
  let+ createdAt := in_world Date_toISOString in
  let newQuery :=
    MultiAgentQuery.mk id query selectedAgentIds pending no_results createdAt None in
  let updatedQueries := queries ++ [newQuery] in
  let+ _ := saveQueries updatedQueries in
  retQ newQuery.

(** [status === 'completed'] *)
Definition is_completed (s : QueryStatus) : bool :=
  match s with
  | completed => true
  | _ => false
  end.

(** [{ ...query, status, results: results || query.results, completedAt:
    status === 'completed' ? new Date().toISOString() : query.completedAt }];
    an object is truthy, so [results] counts whenever it is given. *)
Definition with_status (status : QueryStatus) (results : option R)
    (query : MultiAgentQuery.t R) : MQ R (MultiAgentQuery.t R) :=
  let+ completedAt :=
    if is_completed status
    then let+ now := in_world Date_toISOString in retQ (Some now)
    else retQ (MultiAgentQuery.completedAt query) in
  retQ (MultiAgentQuery.mk
          (MultiAgentQuery.id query) (MultiAgentQuery.query query)
          (MultiAgentQuery.selectedAgents query) status
          (default (MultiAgentQuery.results query) results)
          (MultiAgentQuery.createdAt query) completedAt).

(** [updateQueryStatus(queryId, status, results)] *)
Definition updateQueryStatus (queryId : jsstring) (status : QueryStatus)
    (results : option R) : MQ R unit :=
  let+ queries := current_queries in
  let+ updatedQueries :=
    mapMQ (fun query =>
             if bool_decide (MultiAgentQuery.id query = queryId)
             then with_status status results query
             else retQ query) queries in
  saveQueries updatedQueries.

End Queries.

(** ** [MultiAgentResearch]: the selection of agents *)

(** [prev.includes(agentId)] *)
Definition includes (agentId : jsstring) (prev : list jsstring) : bool :=
  existsb (fun id => bool_decide (id = agentId)) prev.

(** The update [handleAgentToggle(agentId)] applies to the selected
    agents. *)
Definition handleAgentToggle (agentId : jsstring) (prev : list jsstring) : list jsstring :=
  if includes agentId prev
  then List.filter (fun id => negb (bool_decide (id = agentId))) prev
  else prev ++ [agentId].

(** ** An ideal instance of the primitives

    A key-derivation function without collisions and a cipher that binds a
    ciphertext to the key and the IV it was made with: the derived key is
    the framed list of what it was derived from, a ciphertext is the framed
    key and IV followed by the plaintext, and it opens only under that key
    and IV. Secrecy is not modelled; none of the properties below is about
    it. *)
Module Ideal.

(** A length in unary, a zero byte, the bytes. *)
Definition frame (l : list byte) : list byte :=
  repeat x01 (length l) ++ x00 :: l.

Fixpoint bytes_of_positive (p : positive) : list byte :=
  match p with
  | xH => [x02]
  | xO q => x00 :: bytes_of_positive q
  | xI q => x01 :: bytes_of_positive q
  end.

Definition bytes_of_N (n : N) : list byte :=
  match n with
  | N0 => []
  | Npos p => bytes_of_positive p
  end.

Definition hash_tag (h : HashAlgorithm) : byte :=
  match h with
  | SHA_1 => x01
  | SHA_256 => x02
  | SHA_384 => x03
  | SHA_512 => x04
  end.

Definition derive (h : HashAlgorithm) (password salt : list byte)
    (iterations length : N) : list byte :=
  frame [hash_tag h] ++ frame password ++ frame salt
  ++ frame (bytes_of_N iterations) ++ frame (bytes_of_N length).

Fixpoint strip_prefix (p l : list byte) : option (list byte) :=
  match p, l with
  | [], _ => Some l
  | a :: p', b :: l' => if Byte.eqb a b then strip_prefix p' l' else None
  | _ :: _, [] => None
  end.

Definition seal (key iv plaintext : list byte) : list byte :=
  frame key ++ frame iv ++ plaintext.

Definition open (key iv ciphertext : list byte) : option (list byte) :=
  strip_prefix (frame key ++ frame iv) ciphertext.

Definition prims : Primitives :=
  {| secret := list byte;
     PBKDF2 := derive;
     AES_GCM_encrypt := seal;
     AES_GCM_decrypt := open |}.

(** A world for examples: the tape holds 0, 1, 2, ... (mod 256), nobody is
    signed in, nothing is stored, and a call takes up to 65536 arguments. *)
Definition world0 : World :=
  mkWorld (fun i => ToUint8 (N.of_nat i)) 0 (js "2025-01-01T00:00:00.000Z")
          ∅ (fun _ _ => true) None [] false [] [] 65536.

(** The same with a user signed in. *)
Definition world1 : World :=
  mkWorld (fun i => ToUint8 (N.of_nat i)) 0 (js "2025-01-01T00:00:00.000Z")
          ∅ (fun _ _ => true) (Some (User.mk (js "u1"))) [] false [] [] 65536.

(** A form filled in by that user. *)
Definition form0 : APIKeyFormData.t :=
  APIKeyFormData.mk (js "prod key") openai (js "sk-live-42")
    (Some (js "gpt-4")) None None.

End Ideal.

(** ** Sample states of the hook *)
Module Sample.

Definition blob : EncryptedData.t :=
  EncryptedData.mk (js "AAAA") (js "AAAAAAAAAAAAAAAA") (js "AAAAAAAAAAAAAAAAAAAAAA==").

(** A ciphertext the ideal cipher opens under the key [decryptData]
    derives for the password [hunter2]. *)
Definition sealed : EncryptedData.t :=
  EncryptedData.mk
    (b64enc (spread
       (Ideal.seal
          (Ideal.derive SHA_256 (TextEncoder_encode (js "hunter2"))
             (tape (advance 16 Ideal.world0) 12) 100000 256)
          (tape (advance 16 Ideal.world0) 12)
          (TextEncoder_encode (js "sk-live-42")))))
    (b64enc (spread (tape (advance 16 Ideal.world0) 12)))
    (b64enc (spread (tape Ideal.world0 16))).

Definition key_a : APIKey.t :=
  APIKey.mk (js "a") (js "first") openai blob true
    (js "2025-01-01T00:00:00.000Z") None (Number_of_Z 0) None.

Definition key_b : APIKey.t :=
  APIKey.mk (js "b") (js "second") anthropic blob false
    (js "2025-01-02T00:00:00.000Z") None (Number_of_Z 3) None.

Definition key_ok : APIKey.t :=
  APIKey.mk (js "ok") (js "third") custom sealed true
    (js "2025-01-03T00:00:00.000Z") None (Number_of_Z 0) None.

Definition u1 : User.t := User.mk (js "u1").
Definition u2 : User.t := User.mk (js "u2").

(** User [u1] signed in with three keys stored. *)
Definition world2 : World :=
  mkWorld (fun i => ToUint8 (N.of_nat i)) 0 (js "2025-02-01T00:00:00.000Z")
          (<[storage_key u1 := [key_a; key_b; key_ok]]> ∅) (fun _ _ => true)
          (Some u1) [key_a; key_b; key_ok] false [] [] 65536.

(** The same with no room left in [localStorage]. *)
Definition world_full : World :=
  mkWorld (fun i => ToUint8 (N.of_nat i)) 0 (js "2025-02-01T00:00:00.000Z")
          (<[storage_key u1 := [key_a; key_b; key_ok]]> ∅) (fun _ _ => false)
          (Some u1) [key_a; key_b; key_ok] false [] [] 65536.

(** The same keys in the state of the hook with nobody signed in. *)
Definition world_out : World :=
  mkWorld (fun i => ToUint8 (N.of_nat i)) 0 (js "2025-02-01T00:00:00.000Z")
          ∅ (fun _ _ => true) None [key_a; key_b; key_ok] false [] [] 65536.

(** User [u1] signed in, no query yet; the [results] of a query are not
    looked at and are kept as [unit]. *)
Definition qworld : QueryWorld unit :=
  mkQueryWorld Ideal.world1 [] ∅ (fun _ _ => true).

(** One query, pending. *)
Definition query1 : MultiAgentQuery.t unit :=
  MultiAgentQuery.mk (js "q1") (js "market size of tea") [js "a"] pending tt
    (js "2025-01-05T00:00:00.000Z") None.

Definition qworld1 : QueryWorld unit :=
  mkQueryWorld Ideal.world1 [query1] ∅ (fun _ _ => true).

End Sample.

(** * Properties *)

Example TextEncoder_samples :
  TextEncoder_encode [0xE9] = [xc3; xa9] /\
  TextEncoder_encode [0x20AC] = [xe2; x82; xac] /\
  TextEncoder_encode [0xD83D; 0xDE00] = [xf0; x9f; x98; x80] /\
  TextEncoder_encode [0xD800; 0x41] = [xef; xbf; xbd; x41].
Proof. repeat split. Qed.

Example TextDecoder_samples :
  TextDecoder_decode [xc3; xa9] = [0xE9] /\
  TextDecoder_decode [xe2; x82; xac] = [0x20AC] /\
  TextDecoder_decode [xf0; x9f; x98; x80] = [0xD83D; 0xDE00] /\
  TextDecoder_decode [xef; xbb; xbf; x41] = [0x41] /\
  TextDecoder_decode [xe2; x82; x41] = [0xFFFD; 0x41] /\
  TextDecoder_decode [xc0; x80] = [0xFFFD; 0xFFFD] /\
  TextDecoder_decode [xed; xa0; x80] = [0xFFFD; 0xFFFD; 0xFFFD].
Proof. repeat split. Qed.

Example toString16_samples :
  Number_toString16 0 = js "0" /\ Number_toString16 10 = js "a" /\
  Number_toString16 255 = js "ff" /\ Number_toString16 4096 = js "1000" /\
  padStart (js "a") 2 (js "0") = js "0a" /\
  padStart (js "ab") 5 (js "xy") = js "xyxab".
Proof. repeat split. Qed.

Example btoa_samples :
  btoa (js "Man") = Ok (js "TWFu") /\ btoa (js "Ma") = Ok (js "TWE=") /\
  btoa (js "M") = Ok (js "TQ==") /\
  btoa [0x263A] = Throw (DOMException "InvalidCharacterError").
Proof. repeat split. Qed.

Example atob_samples :
  atob (js "TWFu") = Ok (js "Man") /\ atob (js "TW Fu TQ") = Ok (js "ManM") /\
  atob (js "TQ=") = Throw (DOMException "InvalidCharacterError") /\
  atob (js "TWFuT") = Throw (DOMException "InvalidCharacterError") /\
  atob (js "TQ==TQ==") = Throw (DOMException "InvalidCharacterError").
Proof. repeat split. Qed.

(** ** Base64 *)

Lemma list_ind3 {A} (Q : list A -> Prop) :
  Q [] -> (forall x, Q [x]) -> (forall x y, Q [x; y]) ->
  (forall x y z r, Q r -> Q (x :: y :: z :: r)) ->
  forall l, Q l.
Proof.
  intros H0 H1 H2 H3 l.
  cut (Q l /\ (forall x, Q (x :: l)) /\ (forall x y, Q (x :: y :: l))).
  { intros [H _]; exact H. }
  induction l as [|a l [IH0 [IH1 IH2]]].
  - repeat split; auto.
  - repeat split; auto.
Qed.

Lemma enc6_cases (Q : N -> bool) :
  Q 0 = true -> forallb Q b64_alphabet = true -> forall v, Q (enc6 v) = true.
Proof.
  intros H0 Hall v. unfold enc6.
  destruct (nth_in_or_default (N.to_nat v) b64_alphabet 0) as [Hin | ->]; [|exact H0].
  rewrite forallb_forall in Hall. apply Hall, Hin.
Qed.

Lemma enc6_not_whitespace v : is_ascii_whitespace (enc6 v) = false.
Proof.
  apply negb_true_iff.
  apply (enc6_cases (fun c => negb (is_ascii_whitespace c))); reflexivity.
Qed.

Lemma enc6_not_pad v : (enc6 v =? pad_char) = false.
Proof.
  apply negb_true_iff.
  apply (enc6_cases (fun c => negb (c =? pad_char))); reflexivity.
Qed.

Lemma dec6_enc6 v : v < 64 -> dec6 (enc6 v) = Some v.
Proof.
  intros Hv.
  assert (Htab : forallb (fun i => match dec6 (enc6 (N.of_nat i)) with
                                   | Some u => u =? N.of_nat i
                                   | None => false
                                   end) (seq 0 64) = true) by reflexivity.
  rewrite forallb_forall in Htab.
  specialize (Htab (N.to_nat v)). rewrite N2Nat.id in Htab.
  destruct (dec6 (enc6 v)) as [u|].
  - f_equal. apply N.eqb_eq, Htab, in_seq. lia.
  - discriminate Htab. apply in_seq. lia.
Qed.

Lemma b64enc_no_whitespace l :
  List.filter (fun c => negb (is_ascii_whitespace c)) (b64enc l) = b64enc l.
Proof.
  induction l as [| x | x y | x y z r IH] using list_ind3;
    cbn [b64enc List.filter];
    rewrite ?enc6_not_whitespace; cbn; congruence.
Qed.

Lemma b64enc_length l : exists k, length (b64enc l) = (4 * k)%nat.
Proof.
  induction l as [| x | x y | x y z r [k IH]] using list_ind3.
  - exists 0%nat. reflexivity.
  - exists 1%nat. reflexivity.
  - exists 1%nat. reflexivity.
  - exists (S k). cbn [b64enc length]. rewrite IH. lia.
Qed.

Lemma length_mod4 (k : nat) : N.of_nat (4 * k) mod 4 = 0.
Proof.
  rewrite Nat2N.inj_mul, N.mul_comm. apply N.Div0.mod_mul.
Qed.

Lemma length_plus4_mod4 (n : nat) :
  N.of_nat (S (S (S (S n)))) mod 4 = N.of_nat n mod 4.
Proof.
  assert (E : N.of_nat (S (S (S (S n)))) = N.of_nat n + 1 * 4) by lia.
  rewrite E. apply N.Div0.mod_add.
Qed.

(** Padding is looked for at the end only. *)
Lemma strip_padding_app g t :
  (2 <= length t)%nat -> strip_padding (g ++ t) = g ++ strip_padding t.
Proof.
  intros Hlen. unfold strip_padding. rewrite rev_app_distr.
  destruct (rev t) as [|c1 [|c2 r]] eqn:Hrev.
  - apply (f_equal (@length N)) in Hrev. rewrite length_rev in Hrev. simpl in Hrev. lia.
  - apply (f_equal (@length N)) in Hrev. rewrite length_rev in Hrev. simpl in Hrev. lia.
  - cbn [app].
    destruct (c1 =? pad_char); [|reflexivity].
    destruct (c2 =? pad_char).
    + rewrite rev_app_distr, rev_involutive. reflexivity.
    + cbn [rev]. rewrite !rev_app_distr, rev_involutive. cbn [rev app].
      rewrite <- app_assoc. reflexivity.
Qed.

Lemma sextets_of_app4 a b c d t vs :
  a < 64 -> b < 64 -> c < 64 -> d < 64 ->
  sextets_of t = Some vs ->
  sextets_of (enc6 a :: enc6 b :: enc6 c :: enc6 d :: t) = Some (a :: b :: c :: d :: vs).
Proof.
  intros Ha Hb Hc Hd Ht. cbn [sextets_of].
  rewrite !dec6_enc6, Ht by assumption. reflexivity.
Qed.

(** The arithmetic of regrouping 3 bytes into 4 values and back. *)
Ltac divmod := intros; zify; Z.to_euclidean_division_equations; lia.

Lemma regroup_bounds x y z :
  x <= 255 -> y <= 255 -> z <= 255 ->
  x / 4 < 64 /\ (x mod 4) * 16 + y / 16 < 64 /\
  (y mod 16) * 4 + z / 64 < 64 /\ z mod 64 < 64 /\
  (x mod 4) * 16 < 64 /\ (y mod 16) * 4 < 64.
Proof. divmod. Qed.

Lemma regroup_first x y :
  y <= 255 -> (x / 4) * 4 + ((x mod 4) * 16 + y / 16) / 16 = x.
Proof. divmod. Qed.

Lemma regroup_second x y z :
  y <= 255 -> z <= 255 ->
  (((x mod 4) * 16 + y / 16) mod 16) * 16 + ((y mod 16) * 4 + z / 64) / 4 = y.
Proof. divmod. Qed.

Lemma regroup_third y z :
  z <= 255 -> (((y mod 16) * 4 + z / 64) mod 4) * 64 + z mod 64 = z.
Proof. divmod. Qed.

Lemma regroup_first_only x : (x / 4) * 4 + ((x mod 4) * 16) / 16 = x.
Proof. divmod. Qed.

Lemma regroup_second_only x y :
  y <= 255 -> (((x mod 4) * 16 + y / 16) mod 16) * 16 + ((y mod 16) * 4) / 4 = y.
Proof. divmod. Qed.

(** The encoding without its padding has a length that is not 1 modulo 4,
    holds only characters of the alphabet, and regroups to the bytes. *)
Lemma b64enc_stripped l :
  Forall (fun x => x <= 255) l ->
  exists vs,
    (N.of_nat (length (strip_padding (b64enc l))) mod 4 =? 1) = false /\
    sextets_of (strip_padding (b64enc l)) = Some vs /\
    b64dec vs = l.
Proof.
  induction l as [| x | x y | x y z r IH] using list_ind3; intros Hall.
  - exists []. repeat split.
  - inversion_clear Hall as [|? ? Hx _].
    destruct (regroup_bounds x 0 0) as (? & _ & _ & _ & ? & _); [lia..|].
    exists [x / 4; (x mod 4) * 16].
    cbn [b64enc]. unfold strip_padding. cbn [rev app].
    rewrite N.eqb_refl. cbn [rev app length sextets_of].
    rewrite !dec6_enc6 by assumption.
    repeat split. cbn [b64dec]. f_equal. apply regroup_first_only.
  - inversion_clear Hall as [|? ? Hx Hall']. inversion_clear Hall' as [|? ? Hy _].
    destruct (regroup_bounds x y 0) as (? & ? & _ & _ & _ & ?); [lia..|].
    exists [x / 4; (x mod 4) * 16 + y / 16; (y mod 16) * 4].
    cbn [b64enc]. unfold strip_padding. cbn [rev app].
    rewrite N.eqb_refl, enc6_not_pad. cbn [rev app length sextets_of].
    rewrite !dec6_enc6 by assumption.
    repeat split. cbn [b64dec].
    rewrite regroup_first, regroup_second_only by assumption. reflexivity.
  - inversion_clear Hall as [|? ? Hx Hall']. inversion_clear Hall' as [|? ? Hy Hall''].
    inversion_clear Hall'' as [|? ? Hz Hr].
    destruct (regroup_bounds x y z) as (? & ? & ? & ? & _ & _); [lia..|].
    destruct (IH Hr) as (vs & Hlen & Hsex & Hdec).
    exists (x / 4 :: (x mod 4) * 16 + y / 16 :: (y mod 16) * 4 + z / 64 :: z mod 64 :: vs).
    assert (Hstrip : strip_padding (b64enc (x :: y :: z :: r)) =
              enc6 (x / 4) :: enc6 ((x mod 4) * 16 + y / 16)
              :: enc6 ((y mod 16) * 4 + z / 64) :: enc6 (z mod 64)
              :: strip_padding (b64enc r)).
    { cbn [b64enc]. destruct r as [|r0 r'].
      - unfold strip_padding. cbn [b64enc rev app]. rewrite enc6_not_pad. reflexivity.
      - change (?a :: ?b :: ?c :: ?d :: ?t) with ([a; b; c; d] ++ t).
        rewrite strip_padding_app; [reflexivity|].
        destruct r' as [|r1 [|r2 r'']]; cbn [b64enc length]; lia. }
    rewrite Hstrip. split; [|split].
    + cbn [length]. rewrite length_plus4_mod4. exact Hlen.
    + apply sextets_of_app4; assumption.
    + cbn [b64dec]. rewrite Hdec.
      rewrite regroup_first, regroup_second, regroup_third by assumption.
      reflexivity.
Qed.

(** [atob] undoes [btoa] on every string [btoa] accepts. *)
Lemma atob_b64enc l :
  Forall (fun x => x <= 255) l -> atob (b64enc l) = Ok l.
Proof.
  intros Hall. unfold atob. rewrite b64enc_no_whitespace. unfold atob_tail.
  destruct (b64enc_length l) as [k Hk]. rewrite Hk, length_mod4. cbn [N.eqb].
  destruct (b64enc_stripped l Hall) as (vs & -> & -> & ->). reflexivity.
Qed.

(** ** Bytes through [String.fromCharCode], [split] and [charCodeAt] *)

Lemma to_N_le_255 (b : byte) : Byte.to_N b <= 255.
Proof. apply Byte.to_N_bounded. Qed.

Lemma spread_bounded (a : list byte) : Forall (fun x => x <= 255) (spread a).
Proof.
  unfold spread. apply Forall_map, Forall_forall. intros b _. apply to_N_le_255.
Qed.

Lemma String_fromCharCode_spread (a : list byte) :
  String_fromCharCode (spread a) = spread a.
Proof.
  unfold String_fromCharCode, spread. rewrite map_map. apply map_ext.
  intros b. apply N.mod_small. pose proof (to_N_le_255 b). lia.
Qed.

Lemma btoa_bounded (s : jsstring) :
  Forall (fun x => x <= 255) s -> btoa s = Ok (b64enc s).
Proof.
  intros Hall. unfold btoa.
  replace (forallb (fun c => c <=? 255) s) with true; [reflexivity|].
  symmetry. apply forallb_forall. intros x Hx. apply N.leb_le.
  rewrite List.Forall_forall in Hall. apply Hall, Hx.
Qed.

Lemma btoa_bytes (a : list byte) :
  btoa (String_fromCharCode (spread a)) = Ok (b64enc (spread a)).
Proof. rewrite String_fromCharCode_spread. apply btoa_bounded, spread_bounded. Qed.

Lemma charCodes_split (s : jsstring) : map charCodeAt0 (split_empty s) = s.
Proof. unfold split_empty. rewrite map_map. apply map_id. Qed.

Lemma ToUint8_to_N (b : byte) : ToUint8 (Byte.to_N b) = b.
Proof.
  unfold ToUint8. rewrite N.mod_small by (pose proof (to_N_le_255 b); lia).
  rewrite Byte.of_to_N. reflexivity.
Qed.

Lemma Uint8Array_from_spread (a : list byte) : Uint8Array_from (spread a) = a.
Proof.
  unfold Uint8Array_from, spread. rewrite map_map.
  rewrite (map_ext _ (fun b => b)) by apply ToUint8_to_N. apply map_id.
Qed.

Lemma decode_field_b64enc (a : list byte) (w : World) :
  decode_field (b64enc (spread a)) w = (Ok a, w).
Proof.
  unfold decode_field, bind, lift, ret.
  rewrite atob_b64enc by apply spread_bounded.
  rewrite charCodes_split, Uint8Array_from_spread. reflexivity.
Qed.

(** ** [src/lib/crypto.ts]: what each function computes *)

Arguments mkCryptoKey {P}.
Arguments Pbkdf2Key {P}.
Arguments AesGcmKey {P}.

Section CryptoFacts.
Context (P : Primitives).

Lemma getRandomValues_new (n : nat) (w : World) :
  N.of_nat n <= 65536 ->
  getRandomValues (Uint8Array_new n) w = (Ok (tape w n), advance n w).
Proof.
  intros Hn. unfold getRandomValues, Uint8Array_new. rewrite repeat_length.
  destruct (N.ltb_spec 65536 (N.of_nat n)); [lia | reflexivity].
Qed.

Lemma tape_length (w : World) (n : nat) : length (tape w n) = n.
Proof. unfold tape. rewrite length_map, length_seq. reflexivity. Qed.

(** [deriveKey] never throws: it imports the UTF-8 bytes of the password
    and derives from them, with PBKDF2 over SHA-256 and 100000 iterations,
    a 256-bit AES-GCM key for encryption and decryption. *)
Lemma deriveKey_eq (password : jsstring) (salt : list byte) (w : World) :
  deriveKey P password salt w =
  (Ok (mkCryptoKey false [Usage.encrypt; Usage.decrypt]
         (AesGcmKey 256
            (PBKDF2 P SHA_256 (TextEncoder_encode password) salt 100000 256))),
   w).
Proof. reflexivity. Qed.

Lemma subtle_encrypt_derived (material : secret P) (iv data : list byte) :
  subtle_encrypt P (AesGcmParams.mk ENCRYPTION_ALGORITHM iv)
    (mkCryptoKey false [Usage.encrypt; Usage.decrypt] (AesGcmKey 256 material)) data
  = Ok (AES_GCM_encrypt P material iv data).
Proof. reflexivity. Qed.

Lemma subtle_decrypt_derived (material : secret P) (iv data : list byte) :
  subtle_decrypt P (AesGcmParams.mk ENCRYPTION_ALGORITHM iv)
    (mkCryptoKey false [Usage.encrypt; Usage.decrypt] (AesGcmKey 256 material)) data
  = match AES_GCM_decrypt P material iv data with
    | Some plaintext => Ok plaintext
    | None => Throw (DOMException "OperationError")
    end.
Proof. reflexivity. Qed.

Lemma base64_of_bytes_eq (array : list byte) (w : World) :
  base64_of_bytes array w =
  if accepts w (length array) then (Ok (b64enc (spread array)), w)
  else (Throw RangeError, w).
Proof.
  unfold base64_of_bytes, bind, String_fromCharCode_apply, lift.
  destruct (accepts w (length array)); [|reflexivity].
  rewrite btoa_bytes. reflexivity.
Qed.

(** [encryptData] draws the salt and the IV, derives the key, encrypts, and
    then encodes the ciphertext, the IV and the salt, each in one call of
    [String.fromCharCode]; it throws exactly when one of these calls has
    more arguments than the engine accepts. *)
Lemma encryptData_eq (data password : jsstring) (w : World) :
  let ciphertext :=
    AES_GCM_encrypt P
      (PBKDF2 P SHA_256 (TextEncoder_encode password) (tape w 16) 100000 256)
      (tape (advance 16 w) 12)
      (TextEncoder_encode data) in
  encryptData P data password w =
  (if accepts w (length ciphertext) && accepts w 12 && accepts w 16
   then Ok (EncryptedData.mk
              (b64enc (spread ciphertext))
              (b64enc (spread (tape (advance 16 w) 12)))
              (b64enc (spread (tape w 16))))
   else Throw RangeError,
   advance 12 (advance 16 w)).
Proof.
  intros ciphertext.
  unfold encryptData, SALT_LENGTH, IV_LENGTH.
  unfold bind at 1. rewrite getRandomValues_new by (cbn; lia).
  unfold bind at 1. rewrite getRandomValues_new by (cbn; lia).
  unfold bind at 1. rewrite deriveKey_eq.
  unfold bind at 1. unfold lift at 1. rewrite subtle_encrypt_derived. fold ciphertext.
  unfold bind at 1. rewrite base64_of_bytes_eq.
  change (accepts (advance 12 (advance 16 w))) with (accepts w).
  destruct (accepts w (length ciphertext)); [|reflexivity].
  unfold bind at 1. rewrite base64_of_bytes_eq, tape_length.
  change (accepts (advance 12 (advance 16 w))) with (accepts w).
  destruct (accepts w 12); [|reflexivity].
  unfold bind at 1. rewrite base64_of_bytes_eq, tape_length.
  change (accepts (advance 12 (advance 16 w))) with (accepts w).
  destruct (accepts w 16); reflexivity.
Qed.

(** What [encryptData] returns, when it returns. *)
Lemma encryptData_returns (data password : jsstring) (w w1 : World) (E : EncryptedData.t) :
  encryptData P data password w = (Ok E, w1) ->
  E = EncryptedData.mk
        (b64enc (spread
           (AES_GCM_encrypt P
              (PBKDF2 P SHA_256 (TextEncoder_encode password) (tape w 16) 100000 256)
              (tape (advance 16 w) 12)
              (TextEncoder_encode data))))
        (b64enc (spread (tape (advance 16 w) 12)))
        (b64enc (spread (tape w 16))) /\
  w1 = advance 12 (advance 16 w).
Proof.
  rewrite encryptData_eq. cbv zeta.
  destruct (_ && _ && _); intros H; [|discriminate H].
  split; congruence.
Qed.

(** [encryptData] returns whenever the engine accepts the three calls. *)
Lemma encryptData_accepted (data password : jsstring) (w : World) :
  accepts w
    (length
       (AES_GCM_encrypt P
          (PBKDF2 P SHA_256 (TextEncoder_encode password) (tape w 16) 100000 256)
          (tape (advance 16 w) 12)
          (TextEncoder_encode data)))
  && accepts w 12 && accepts w 16 = true ->
  encryptData P data password w =
  (Ok (EncryptedData.mk
         (b64enc (spread
            (AES_GCM_encrypt P
               (PBKDF2 P SHA_256 (TextEncoder_encode password) (tape w 16) 100000 256)
               (tape (advance 16 w) 12)
               (TextEncoder_encode data))))
         (b64enc (spread (tape (advance 16 w) 12)))
         (b64enc (spread (tape w 16)))),
   advance 12 (advance 16 w)).
Proof. intros H. rewrite encryptData_eq. cbv zeta. rewrite H. reflexivity. Qed.

Lemma decryptData_eq (encryptedData : EncryptedData.t) (password : jsstring) (w : World) :
  decryptData P encryptedData password w =
  (match atob (EncryptedData.salt encryptedData),
         atob (EncryptedData.iv encryptedData),
         atob (EncryptedData.encrypted encryptedData) with
   | Ok _, Ok iv, Ok encrypted =>
       match AES_GCM_decrypt P
               (PBKDF2 P SHA_256 (TextEncoder_encode password)
                  (Uint8Array_from iv) 100000 256)
               (Uint8Array_from iv) (Uint8Array_from encrypted) with
       | Some plaintext => Ok (TextDecoder_decode plaintext)
       | None => Throw decrypt_error
       end
   | _, _, _ => Throw decrypt_error
   end, w).
Proof.
  unfold decryptData, try_catch, decode_field.
  unfold bind at 1. unfold bind at 1. unfold lift at 1.
  destruct (atob (EncryptedData.salt encryptedData)) as [s|e]; [|reflexivity].
  unfold ret at 1.
  unfold bind at 1. unfold bind at 1. unfold lift at 1.
  destruct (atob (EncryptedData.iv encryptedData)) as [i|e]; [|reflexivity].
  unfold ret at 1.
  unfold bind at 1. unfold bind at 1. unfold lift at 1.
  destruct (atob (EncryptedData.encrypted encryptedData)) as [c|e]; [|reflexivity].
  unfold ret at 1.
  unfold bind at 1. rewrite deriveKey_eq. rewrite !charCodes_split.
  unfold bind, lift, ret, throw. rewrite subtle_decrypt_derived.
  destruct (AES_GCM_decrypt P _ _ _); reflexivity.
Qed.

End CryptoFacts.

(** ** [generateSecureId] *)

Lemma byte_two_hex_digits (b : byte) :
  padStart (Number_toString16 (Byte.to_N b)) 2 (js "0") =
  [hex_digit (Byte.to_N b / 16); hex_digit (Byte.to_N b mod 16)].
Proof. destruct b; reflexivity. Qed.

Lemma hex_digit_lower (d : N) : d < 16 -> is_lower_hex_digit (hex_digit d) = true.
Proof.
  intros Hd.
  assert (Htab : forallb (fun i => is_lower_hex_digit (hex_digit (N.of_nat i)))
                   (seq 0 16) = true) by reflexivity.
  rewrite forallb_forall in Htab.
  specialize (Htab (N.to_nat d)). rewrite N2Nat.id in Htab.
  apply Htab, in_seq. lia.
Qed.

Lemma generateSecureId_eq (w : World) :
  generateSecureId w =
  (Ok (concat (map (fun b => [hex_digit (Byte.to_N b / 16);
                              hex_digit (Byte.to_N b mod 16)])
                   (tape w 16))),
   advance 16 w).
Proof.
  unfold generateSecureId, bind. rewrite getRandomValues_new by (cbn; lia).
  unfold ret, join_empty. do 2 f_equal. f_equal.
  apply map_ext. intros b. apply byte_two_hex_digits.
Qed.

Lemma two_digits_length {A} (f g : A -> N) (l : list A) :
  length (concat (map (fun b => [f b; g b]) l)) = (2 * length l)%nat.
Proof. induction l as [|a l IH]; cbn [map concat app length]; lia. Qed.

Lemma two_digits_hex (l : list byte) :
  Forall (fun c => is_lower_hex_digit c = true)
    (concat (map (fun b => [hex_digit (Byte.to_N b / 16);
                            hex_digit (Byte.to_N b mod 16)]) l)).
Proof.
  induction l as [|b l IH]; cbn [map concat app]; [constructor|].
  pose proof (to_N_le_255 b) as Hb.
  constructor; [|constructor; [|exact IH]]; apply hex_digit_lower.
  - apply N.Div0.div_lt_upper_bound. lia.
  - apply N.mod_upper_bound. lia.
Qed.

(** ** [decryptData] and the world *)

Section DecryptFacts.
Context (P : Primitives).

Lemma decryptData_world (E : EncryptedData.t) (password : jsstring) (w : World) :
  snd (decryptData P E password w) = w.
Proof. rewrite decryptData_eq. reflexivity. Qed.

Lemma decryptData_outcome (E : EncryptedData.t) (password : jsstring) (w1 w2 : World) :
  fst (decryptData P E password w1) = fst (decryptData P E password w2).
Proof. rewrite !decryptData_eq. reflexivity. Qed.

Lemma decryptData_throws (E : EncryptedData.t) (password : jsstring) (w w' : World) (e : exn) :
  decryptData P E password w = (Throw e, w') -> e = decrypt_error.
Proof.
  rewrite decryptData_eq. intros H.
  destruct (atob (EncryptedData.salt E)); [|congruence].
  destruct (atob (EncryptedData.iv E)); [|congruence].
  destruct (atob (EncryptedData.encrypted E)); [|congruence].
  destruct (AES_GCM_decrypt P _ _ _); congruence.
Qed.

End DecryptFacts.

(** ** The hook *)

Section HookFacts.
Context (P : Primitives).

Lemma mark_used_if (keyId : jsstring) (k : APIKey.t) (w : World) :
  (if id_is keyId k then mark_used k else ret k) w =
  (Ok (if id_is keyId k then used_at (clock w) k else k), w).
Proof. destruct (id_is keyId k); reflexivity. Qed.

Lemma mapM_mark_used (keyId : jsstring) (l : list APIKey.t) (w : World) :
  mapM (fun k => if id_is keyId k then mark_used k else ret k) l w =
  (Ok (map (fun k => if id_is keyId k then used_at (clock w) k else k) l), w).
Proof.
  induction l as [|k l IH]; [reflexivity|].
  cbn [mapM map]. unfold bind at 1. rewrite mark_used_if.
  unfold bind at 1. rewrite IH. reflexivity.
Qed.

(** The three ways [decryptAPIKey] ends: the key is not found, decryption
    throws, or decryption succeeds and the list is saved (which the quota can
    still refuse). *)
Lemma decryptAPIKey_eq (keyId password : jsstring) (w : World) :
  decryptAPIKey P keyId password w =
  match find (id_is keyId) (apiKeys w) with
  | None =>
      (Ok None,
       add_toast decrypt_failed_toast
         (add_console "Failed to decrypt API key:" (Error "API key not found") w))
  | Some key =>
      match fst (decryptData P (APIKey.encryptedKey key) password w) with
      | Throw e =>
          (Ok None,
           add_toast decrypt_failed_toast (add_console "Failed to decrypt API key:" e w))
      | Ok plaintext =>
          let updatedKeys :=
            map (fun k => if id_is keyId k then used_at (clock w) k else k) (apiKeys w) in
          match user w with
          | None => (Ok (Some plaintext), w)
          | Some u =>
              if setItem_fits w (storage_key u) updatedKeys
              then (Ok (Some plaintext),
                    set_apiKeys updatedKeys (set_storage (storage_key u) updatedKeys w))
              else (Ok None,
                    add_toast decrypt_failed_toast
                      (add_console "Failed to decrypt API key:"
                         (DOMException "QuotaExceededError") w))
          end
      end
  end.
Proof.
  unfold decryptAPIKey. unfold bind at 1. unfold current_apiKeys at 1.
  unfold try_catch.
  destruct (find (id_is keyId) (apiKeys w)) as [key|]; [|reflexivity].
  unfold bind at 1.
  pose proof (decryptData_world P (APIKey.encryptedKey key) password w) as Hw.
  destruct (decryptData P (APIKey.encryptedKey key) password w) as [[pt|e] w'];
    cbn [fst snd] in *; subst w'; [|reflexivity].
  unfold bind at 1. rewrite mapM_mark_used.
  unfold bind at 1. unfold saveApiKeys. unfold bind at 1. unfold current_user at 1.
  destruct (user w) as [u|]; [|reflexivity].
  unfold bind at 1. unfold localStorage_setItem at 1.
  destruct (setItem_fits w (storage_key u) _); reflexivity.
Qed.

(** The record [addAPIKey] builds from the form, the encrypted key, the
    generated id and the time. *)
Lemma addAPIKey_eq (formData : APIKeyFormData.t) (password : jsstring) (w : World) :
  let w1 := set_isLoading true w in
  let ciphertext :=
    AES_GCM_encrypt P
      (PBKDF2 P SHA_256 (TextEncoder_encode password) (tape w1 16) 100000 256)
      (tape (advance 16 w1) 12)
      (TextEncoder_encode (APIKeyFormData.apiKey formData)) in
  let encryptedKey :=
    EncryptedData.mk
      (b64enc (spread ciphertext))
      (b64enc (spread (tape (advance 16 w1) 12)))
      (b64enc (spread (tape w1 16))) in
  let w2 := advance 12 (advance 16 w1) in
  let id :=
    concat (map (fun b => [hex_digit (Byte.to_N b / 16); hex_digit (Byte.to_N b mod 16)])
              (tape w2 16)) in
  let w3 := advance 16 w2 in
  let newKey :=
    APIKey.mk id (APIKeyFormData.name formData) (APIKeyFormData.provider formData)
      encryptedKey true (clock w) None (Number_of_Z 0)
      (Some (Metadata.mk (APIKeyFormData.model formData)
               (APIKeyFormData.endpoint formData)
               (APIKeyFormData.organization formData))) in
  let updatedKeys := apiKeys w ++ [newKey] in
  addAPIKey P formData password w =
  if accepts w (length ciphertext) && accepts w 12 && accepts w 16 then
    match user w with
    | None =>
        (Ok (Added newKey),
         set_isLoading false (add_toast (added_toast (APIKeyFormData.name formData)) w3))
    | Some u =>
        if setItem_fits w (storage_key u) updatedKeys
        then
          (Ok (Added newKey),
           set_isLoading false
             (add_toast (added_toast (APIKeyFormData.name formData))
                (set_apiKeys updatedKeys (set_storage (storage_key u) updatedKeys w3))))
        else
          (Ok (NotAdded (DOMException "QuotaExceededError")),
           set_isLoading false
             (add_toast add_failed_toast
                (add_console "Failed to add API key:"
                   (DOMException "QuotaExceededError") w3)))
    end
  else
    (Ok (NotAdded RangeError),
     set_isLoading false
       (add_toast add_failed_toast (add_console "Failed to add API key:" RangeError w2))).
Proof.
  intros w1 ciphertext encryptedKey w2 id w3 newKey updatedKeys.
  unfold addAPIKey. unfold bind at 1. unfold current_apiKeys at 1.
  unfold try_finally, try_catch.
  unfold bind at 1. unfold setIsLoading at 1. fold w1.
  unfold bind at 1. rewrite encryptData_eq. cbv zeta. fold ciphertext encryptedKey w2.
  change (accepts w1) with (accepts w).
  destruct (accepts w (length ciphertext) && accepts w 12 && accepts w 16);
    [|reflexivity].
  unfold bind at 1. rewrite generateSecureId_eq. fold id w3.
  unfold bind at 1. unfold Date_toISOString at 1.
  change (clock w3) with (clock w). fold newKey updatedKeys.
  unfold bind at 1. unfold saveApiKeys. unfold bind at 1. unfold current_user at 1.
  change (user w3) with (user w).
  destruct (user w) as [u|]; [|reflexivity].
  unfold bind at 1. unfold localStorage_setItem at 1.
  change (setItem_fits w3) with (setItem_fits w).
  destruct (setItem_fits w (storage_key u) updatedKeys); reflexivity.
Qed.

(** The record of a successful [addAPIKey] and the world it leaves. *)
Lemma addAPIKey_returns (formData : APIKeyFormData.t) (password : jsstring)
    (w w' : World) (key : APIKey.t) :
  addAPIKey P formData password w = (Ok (Added key), w') ->
  let ciphertext :=
    AES_GCM_encrypt P
      (PBKDF2 P SHA_256 (TextEncoder_encode password) (tape w 16) 100000 256)
      (tape (advance 16 w) 12)
      (TextEncoder_encode (APIKeyFormData.apiKey formData)) in
  let w3 := advance 16 (advance 12 (advance 16 (set_isLoading true w))) in
  key =
    APIKey.mk
      (concat (map (fun b => [hex_digit (Byte.to_N b / 16); hex_digit (Byte.to_N b mod 16)])
                 (tape (advance 12 (advance 16 w)) 16)))
      (APIKeyFormData.name formData) (APIKeyFormData.provider formData)
      (EncryptedData.mk
         (b64enc (spread ciphertext))
         (b64enc (spread (tape (advance 16 w) 12)))
         (b64enc (spread (tape w 16))))
      true (clock w) None (Number_of_Z 0)
      (Some (Metadata.mk (APIKeyFormData.model formData)
               (APIKeyFormData.endpoint formData)
               (APIKeyFormData.organization formData))) /\
  accepts w (length ciphertext) && accepts w 12 && accepts w 16 = true /\
  match user w with
  | Some u =>
      setItem_fits w (storage_key u) (apiKeys w ++ [key]) = true /\
      w' = set_isLoading false
             (add_toast (added_toast (APIKeyFormData.name formData))
                (set_apiKeys (apiKeys w ++ [key])
                   (set_storage (storage_key u) (apiKeys w ++ [key]) w3)))
  | None =>
      w' = set_isLoading false
             (add_toast (added_toast (APIKeyFormData.name formData)) w3)
  end.
Proof.
  intros H ciphertext w3.
  pose proof (addAPIKey_eq formData password w) as Heq. cbv zeta in Heq.
  rewrite H in Heq. clear H.
  change (tape (set_isLoading true w) 16) with (tape w 16) in Heq.
  change (tape (advance 16 (set_isLoading true w)) 12) with (tape (advance 16 w) 12) in Heq.
  change (tape (advance 12 (advance 16 (set_isLoading true w))) 16)
    with (tape (advance 12 (advance 16 w)) 16) in Heq.
  fold ciphertext w3 in Heq.
  destruct (accepts w (length ciphertext) && accepts w 12 && accepts w 16);
    [|discriminate Heq].
  match type of Heq with
  | _ = ?R => match R with context [Added ?X] => set (K := X) in * end
  end.
  assert (Hk : key = K).
  { destruct (user w) as [u|]; [|congruence].
    destruct (setItem_fits w (storage_key u) _); [congruence | discriminate Heq]. }
  split; [exact Hk|]. split; [reflexivity|].
  destruct (user w) as [u|].
  - rewrite Hk. destruct (setItem_fits w (storage_key u) (apiKeys w ++ [K]));
      [|discriminate Heq].
    split; [reflexivity | congruence].
  - rewrite Hk in *. congruence.
Qed.

End HookFacts.

(** * The claims *)

(** Running the code at a concrete input. *)
Ltac running :=
  first [ reflexivity
        | cbv beta zeta delta [encryptData addAPIKey decryptAPIKey deleteAPIKey
                               toggleAPIKeyStatus updateAPIKey bind try_catch try_finally
                               createMultiAgentQuery updateQueryStatus bindQ];
          reflexivity ].


(** C5 (amended). The encoding [encryptData] applies to bytes and the
    decoding [decryptData] applies to a field undo each other wherever the
    encoding returns: [btoa(String.fromCharCode(...b))] returns exactly when
    the engine accepts a call with as many arguments as [b] has bytes, and
    throws a [RangeError] otherwise; what it returns decodes to [b], and
    encoding the decoded bytes gives the same text again; the three fields
    of every value [encryptData] returns decode to the ciphertext it
    computed and to the IV and the salt it drew. *)
Theorem base64_fields_roundtrip :
  (forall (b : list byte) (w : World),
     base64_of_bytes b w =
       (if accepts w (length b) then Ok (b64enc (spread b)) else Throw RangeError, w)) /\
  (forall (b : list byte) (w w1 w' : World) (s : jsstring),
     base64_of_bytes b w = (Ok s, w1) ->
     decode_field s w' = (Ok b, w') /\
     (forall b', decode_field s w' = (Ok b', w') -> base64_of_bytes b' w = (Ok s, w))) /\
  (forall (P : Primitives) (data password : jsstring) (w w1 w' : World)
          (E : EncryptedData.t),
     encryptData P data password w = (Ok E, w1) ->
     decode_field (EncryptedData.encrypted E) w' =
       (Ok (AES_GCM_encrypt P
              (PBKDF2 P SHA_256 (TextEncoder_encode password) (tape w 16) 100000 256)
              (tape (advance 16 w) 12) (TextEncoder_encode data)), w') /\
     decode_field (EncryptedData.iv E) w' = (Ok (tape (advance 16 w) 12), w') /\
     decode_field (EncryptedData.salt E) w' = (Ok (tape w 16), w')).
Proof.
  split; [|split].
  - intros b w. rewrite base64_of_bytes_eq. destruct (accepts w (length b)); reflexivity.
  - intros b w w1 w' s H. rewrite base64_of_bytes_eq in H.
    destruct (accepts w (length b)) eqn:Hacc; [|discriminate H].
    assert (s = b64enc (spread b)) as -> by congruence.
    split; [apply decode_field_b64enc|].
    intros b' Hb'. rewrite decode_field_b64enc in Hb'.
    assert (b' = b) as -> by congruence.
    rewrite base64_of_bytes_eq, Hacc. reflexivity.
  - intros P data password w w1 w' E H.
    apply encryptData_returns in H. destruct H as [-> _].
    cbn [EncryptedData.encrypted EncryptedData.iv EncryptedData.salt].
    rewrite !decode_field_b64enc. auto.
Qed.

(** C9. Every value [encryptData] returns has an [iv] field that decodes to
    exactly 12 bytes and a [salt] field that decodes to exactly 16 bytes. *)
Theorem encryptData_shape (P : Primitives) (data password : jsstring)
    (w w1 : World) (E : EncryptedData.t) :
  encryptData P data password w = (Ok E, w1) ->
  exists ivBytes saltBytes,
    (forall w', decode_field (EncryptedData.iv E) w' = (Ok ivBytes, w')) /\
    (forall w', decode_field (EncryptedData.salt E) w' = (Ok saltBytes, w')) /\
    length ivBytes = 12%nat /\ length saltBytes = 16%nat.
Proof.
  intros H. apply encryptData_returns in H. destruct H as [-> _].
  exists (tape (advance 16 w) 12), (tape w 16).
  unfold EncryptedData.iv, EncryptedData.salt.
  split; [intros w'; apply decode_field_b64enc|].
  split; [intros w'; apply decode_field_b64enc|].
  split; apply tape_length.
Qed.

(** C10. [generateSecureId] always returns 32 characters, each one of
    [0-9a-f]: the two hexadecimal digits, the high one first and a leading
    zero kept, of each of 16 random bytes. *)
Theorem generateSecureId_hex (w : World) :
  exists id,
    generateSecureId w = (Ok id, advance 16 w) /\
    length id = 32%nat /\
    Forall (fun c => is_lower_hex_digit c = true) id /\
    id = concat (map (fun b => [hex_digit (Byte.to_N b / 16);
                                hex_digit (Byte.to_N b mod 16)])
                     (tape w 16)).
Proof.
  eexists. split; [apply generateSecureId_eq|].
  split; [|split; [apply two_digits_hex | reflexivity]].
  rewrite two_digits_length, tape_length. reflexivity.
Qed.


(** C7. The completion of [decryptData] is a function of its two arguments:
    in any two worlds (random source, clock, storage, state of the hook) it
    completes alike on equal arguments, with the same string or the same
    error, and it leaves the world as it found it. *)
Theorem decryptData_deterministic (P : Primitives) (E : EncryptedData.t)
    (password : jsstring) (w1 w2 : World) :
  fst (decryptData P E password w1) = fst (decryptData P E password w2) /\
  snd (decryptData P E password w1) = w1.
Proof.
  split; [apply decryptData_outcome | apply decryptData_world].
Qed.

(** C8. [decryptAPIKey] never throws. When the key id is not found, or
    [decryptData] throws on the key found, it returns [null] and leaves the
    list of keys, in the state of the hook and in [localStorage], as it was
    (so no [usageCount] and no [lastUsed] changes); and whenever the list
    changes, a key was found, its decryption succeeded and the plaintext is
    returned. *)
Theorem decryptAPIKey_atomic (P : Primitives) (keyId password : jsstring) (w : World) :
  exists r w',
    decryptAPIKey P keyId password w = (Ok r, w') /\
    ((find (id_is keyId) (apiKeys w) = None \/
      exists key e,
        find (id_is keyId) (apiKeys w) = Some key /\
        fst (decryptData P (APIKey.encryptedKey key) password w) = Throw e) ->
     r = None /\ apiKeys w' = apiKeys w /\ localStorage w' = localStorage w) /\
    ((apiKeys w' <> apiKeys w \/ localStorage w' <> localStorage w) ->
     exists key plaintext,
       find (id_is keyId) (apiKeys w) = Some key /\
       fst (decryptData P (APIKey.encryptedKey key) password w) = Ok plaintext /\
       r = Some plaintext).
Proof.
  rewrite decryptAPIKey_eq.
  destruct (find (id_is keyId) (apiKeys w)) as [key|].
  - destruct (fst (decryptData P (APIKey.encryptedKey key) password w)) as [pt|e] eqn:Hd.
    + cbv zeta. destruct (user w) as [u|].
      * destruct (setItem_fits w (storage_key u) _).
        -- eexists. eexists. split; [reflexivity|]. split.
           ++ intros [Hnone | (key' & e & Hk & He)]; congruence.
           ++ intros _. exists key, pt. auto.
        -- eexists. eexists. split; [reflexivity|]. split.
           ++ intros _. auto.
           ++ intros [Hne | Hne]; exfalso; apply Hne; reflexivity.
      * eexists. eexists. split; [reflexivity|]. split.
        -- intros [Hnone | (key' & e & Hk & He)]; congruence.
        -- intros [Hne | Hne]; exfalso; apply Hne; reflexivity.
    + eexists. eexists. split; [reflexivity|]. split.
      * intros _. auto.
      * intros [Hne | Hne]; exfalso; apply Hne; reflexivity.
  - eexists. eexists. split; [reflexivity|]. split.
    + intros _. auto.
    + intros [Hne | Hne]; exfalso; apply Hne; reflexivity.
Qed.

(** C6. When [addAPIKey] succeeds with a record, the [encryptedKey] of the
    record is what [encryptData] returned for the [apiKey] of the form and
    the password: its [encrypted] field is the base64 text of the AES-GCM
    encryption of the UTF-8 bytes of the [apiKey], under the key derived
    from the password and the salt, and its [iv] and [salt] fields are the
    base64 texts of the 12 and 16 random bytes drawn; with a user signed in
    the record is appended to the list of keys, in the state of the hook and
    in [localStorage]; every other field comes from the name, provider,
    model, endpoint and organization of the form, from the generated id and
    from the clock; and the plaintext reaches no field but the ciphertext:
    with another [apiKey] in the same form, a successful call gives a record
    equal in every other field and in the [iv] and [salt] of
    [encryptedKey]. *)
Theorem addAPIKey_stores_encrypted (P : Primitives) (formData : APIKeyFormData.t)
    (password : jsstring) (w w' : World) (key : APIKey.t) :
  addAPIKey P formData password w = (Ok (Added key), w') ->
  APIKey.encryptedKey key =
    EncryptedData.mk
      (b64enc (spread
         (AES_GCM_encrypt P
            (PBKDF2 P SHA_256 (TextEncoder_encode password) (tape w 16) 100000 256)
            (tape (advance 16 w) 12)
            (TextEncoder_encode (APIKeyFormData.apiKey formData)))))
      (b64enc (spread (tape (advance 16 w) 12)))
      (b64enc (spread (tape w 16))) /\
  (exists w1,
     encryptData P (APIKeyFormData.apiKey formData) password (set_isLoading true w) =
       (Ok (APIKey.encryptedKey key), w1) /\
     generateSecureId w1 = (Ok (APIKey.id key), advance 16 w1)) /\
  (forall u, user w = Some u ->
     apiKeys w' = apiKeys w ++ [key] /\
     localStorage w' !! storage_key u = Some (apiKeys w ++ [key])) /\
  APIKey.name key = APIKeyFormData.name formData /\
  APIKey.provider key = APIKeyFormData.provider formData /\
  APIKey.isActive key = true /\
  APIKey.createdAt key = clock w /\
  APIKey.lastUsed key = None /\
  APIKey.usageCount key = Number_of_Z 0 /\
  APIKey.metadata key =
    Some (Metadata.mk (APIKeyFormData.model formData)
            (APIKeyFormData.endpoint formData)
            (APIKeyFormData.organization formData)) /\
  (forall apiKey2 key2 w2,
     addAPIKey P
       (APIKeyFormData.mk (APIKeyFormData.name formData)
          (APIKeyFormData.provider formData) apiKey2
          (APIKeyFormData.model formData) (APIKeyFormData.endpoint formData)
          (APIKeyFormData.organization formData))
       password w = (Ok (Added key2), w2) ->
     key2 =
       APIKey.mk (APIKey.id key) (APIKey.name key) (APIKey.provider key)
         (EncryptedData.mk
            (EncryptedData.encrypted (APIKey.encryptedKey key2))
            (EncryptedData.iv (APIKey.encryptedKey key))
            (EncryptedData.salt (APIKey.encryptedKey key)))
         (APIKey.isActive key) (APIKey.createdAt key)
         (APIKey.lastUsed key) (APIKey.usageCount key) (APIKey.metadata key)).
Proof.
  intros H.
  destruct (addAPIKey_returns P formData password w w' key H) as (Hk & Hacc & Hw).
  cbv zeta in Hk, Hacc, Hw.
  split; [rewrite Hk; reflexivity|].
  split.
  { eexists. split.
    - rewrite encryptData_accepted; [rewrite Hk; reflexivity | exact Hacc].
    - rewrite generateSecureId_eq, Hk. reflexivity. }
  split.
  { intros u Hu. rewrite Hu in Hw. destruct Hw as [_ ->].
    split; [reflexivity|].
    unfold set_isLoading, add_toast, set_apiKeys, set_storage, localStorage.
    apply lookup_insert_eq. }
  do 7 (split; [rewrite Hk; reflexivity|]).
  intros apiKey2 key2 w2 H2.
  destruct (addAPIKey_returns P _ password w w2 key2 H2) as (Hk2 & _).
  cbv zeta in Hk2. rewrite Hk2, Hk. reflexivity.
Qed.

(** ** The ideal primitives *)

Lemma ideal_strip_prefix_app (p l : list byte) :
  Ideal.strip_prefix p (p ++ l) = Some l.
Proof.
  induction p as [|a p IH]; [reflexivity|].
  cbn [app Ideal.strip_prefix].
  rewrite (Byte.byte_dec_lb (x:=a) (y:=a) eq_refl). exact IH.
Qed.

(** What was sealed under a key and an IV opens under them. *)
Lemma ideal_open_seal (key iv plaintext : list byte) :
  Ideal.open key iv (Ideal.seal key iv plaintext) = Some plaintext.
Proof.
  unfold Ideal.open, Ideal.seal. rewrite app_assoc. apply ideal_strip_prefix_app.
Qed.

Lemma ideal_strip_prefix_unary (n m : nat) (X Y : list byte) :
  n <> m ->
  Ideal.strip_prefix (repeat x01 n ++ x00 :: X) (repeat x01 m ++ x00 :: Y) = None.
Proof.
  revert m. induction n as [|n IH]; intros [|m] Hnm; try congruence; try reflexivity.
  cbn [repeat app Ideal.strip_prefix Byte.eqb]. apply IH. congruence.
Qed.

(** Nothing opens under a key of another length. *)
Lemma ideal_open_other_key (key key' iv iv' plaintext : list byte) :
  length key <> length key' ->
  Ideal.open key' iv' (Ideal.seal key iv plaintext) = None.
Proof.
  intros Hlen. unfold Ideal.open, Ideal.seal, Ideal.frame at 1 3.
  rewrite <- !app_assoc. cbn [app].
  apply ideal_strip_prefix_unary. congruence.
Qed.

Lemma ideal_frame_length (l : list byte) :
  length (Ideal.frame l) = (2 * length l + 1)%nat.
Proof.
  unfold Ideal.frame. rewrite length_app, repeat_length. cbn [length]. lia.
Qed.

(** Salts of different lengths give keys of different lengths. *)
Lemma ideal_derive_length (h : HashAlgorithm) (password salt salt' : list byte)
    (iterations len : N) :
  length salt <> length salt' ->
  length (Ideal.derive h password salt iterations len) <>
  length (Ideal.derive h password salt' iterations len).
Proof.
  intros Hne. unfold Ideal.derive.
  rewrite !length_app, !ideal_frame_length. lia.
Qed.

(** ** Decrypting what [encryptData] returned *)

Lemma decode_field_eq (field : jsstring) (w : World) :
  decode_field field w =
  match atob field with
  | Ok s => (Ok (Uint8Array_from s), w)
  | Throw e => (Throw e, w)
  end.
Proof.
  unfold decode_field, bind, lift, ret.
  destruct (atob field); [rewrite charCodes_split|]; reflexivity.
Qed.

(** [decryptData] on fields that encode given bytes: the salt plays no
    part. *)
Lemma decryptData_encoded (P : Primitives) (ciphertext ivBytes saltBytes : list byte)
    (password : jsstring) (w : World) :
  decryptData P
    (EncryptedData.mk (b64enc (spread ciphertext)) (b64enc (spread ivBytes))
       (b64enc (spread saltBytes)))
    password w =
  (match AES_GCM_decrypt P
           (PBKDF2 P SHA_256 (TextEncoder_encode password) ivBytes 100000 256)
           ivBytes ciphertext with
   | Some plaintext => Ok (TextDecoder_decode plaintext)
   | None => Throw decrypt_error
   end, w).
Proof.
  rewrite decryptData_eq.
  unfold EncryptedData.salt, EncryptedData.iv, EncryptedData.encrypted.
  rewrite !atob_b64enc by apply spread_bounded.
  rewrite !Uint8Array_from_spread. reflexivity.
Qed.

(** C1. The round trip fails (the code does not do what the claim says).
    For all primitives, [decryptData] opens whatever [encryptData] returned
    under the key derived from the IV, while [encryptData] sealed it under
    the key derived from the salt; it returns the plaintext only if the
    cipher accepts the one key for the other. With the ideal primitives,
    where it never does, the round trip throws for every plaintext,
    password and state of the random source. [encryptData] does return
    whenever the engine accepts its three calls of [String.fromCharCode],
    as it does for the key [sk-live-42] and the password [hunter2]. *)
Theorem roundtrip_opens_under_iv_key :
  (forall (P : Primitives) (data password : jsstring) (w w1 w' : World)
          (E : EncryptedData.t),
     encryptData P data password w = (Ok E, w1) ->
     decryptData P E password w' =
       (match AES_GCM_decrypt P
                (PBKDF2 P SHA_256 (TextEncoder_encode password)
                   (tape (advance 16 w) 12) 100000 256)
                (tape (advance 16 w) 12)
                (AES_GCM_encrypt P
                   (PBKDF2 P SHA_256 (TextEncoder_encode password)
                      (tape w 16) 100000 256)
                   (tape (advance 16 w) 12)
                   (TextEncoder_encode data)) with
        | Some plaintext => Ok (TextDecoder_decode plaintext)
        | None => Throw decrypt_error
        end, w')) /\
  (forall (data password : jsstring) (w w1 w' : World) (E : EncryptedData.t),
     encryptData Ideal.prims data password w = (Ok E, w1) ->
     decryptData Ideal.prims E password w' = (Throw decrypt_error, w')) /\
  (forall (P : Primitives) (data password : jsstring) (w : World),
     accepts w
       (length
          (AES_GCM_encrypt P
             (PBKDF2 P SHA_256 (TextEncoder_encode password) (tape w 16) 100000 256)
             (tape (advance 16 w) 12) (TextEncoder_encode data)))
     && accepts w 12 && accepts w 16 = true ->
     exists E w1, encryptData P data password w = (Ok E, w1)) /\
  (exists E w1,
     encryptData Ideal.prims (js "sk-live-42") (js "hunter2") Ideal.world0 = (Ok E, w1) /\
     decryptData Ideal.prims E (js "hunter2") w1 = (Throw decrypt_error, w1)).
Proof.
  assert (Hideal : forall (data password : jsstring) (w w1 w' : World) (E : EncryptedData.t),
             encryptData Ideal.prims data password w = (Ok E, w1) ->
             decryptData Ideal.prims E password w' = (Throw decrypt_error, w')).
  { intros data password w w1 w' E H.
    apply encryptData_returns in H. destruct H as [-> _].
    rewrite decryptData_encoded.
    cbn [AES_GCM_decrypt AES_GCM_encrypt PBKDF2 Ideal.prims].
    rewrite ideal_open_other_key; [reflexivity|].
    apply ideal_derive_length. rewrite !tape_length. discriminate. }
  split; [|split; [exact Hideal | split]].
  - intros P data password w w1 w' E H.
    apply encryptData_returns in H. destruct H as [-> _].
    apply decryptData_encoded.
  - intros P data password w Hacc. eexists. eexists.
    apply encryptData_accepted, Hacc.
  - eexists. eexists. split; [running|].
    eapply (Hideal (js "sk-live-42") (js "hunter2") Ideal.world0). running.
Qed.

(** C2. The key of decryption is not derived from the salt (the code does
    not do what the claim says). For all primitives, when the three fields
    decode, [decryptData] decrypts with the key [deriveKey] returns for the
    password and the bytes of the [iv] field, whatever the bytes of the
    [salt] field. With the ideal primitives that key differs from the one
    derived from the salt as soon as salt and IV differ in length, as the
    16 and 12 bytes of [encryptData] do. *)
Theorem decryptData_key_from_iv :
  (forall (P : Primitives) (E : EncryptedData.t) (password : jsstring) (w : World)
          (saltBytes ivBytes ciphertext : list byte),
     decode_field (EncryptedData.salt E) w = (Ok saltBytes, w) ->
     decode_field (EncryptedData.iv E) w = (Ok ivBytes, w) ->
     decode_field (EncryptedData.encrypted E) w = (Ok ciphertext, w) ->
     exists key,
       deriveKey P password ivBytes w = (Ok key, w) /\
       decryptData P E password w =
         (match subtle_decrypt P (AesGcmParams.mk ENCRYPTION_ALGORITHM ivBytes)
                  key ciphertext with
          | Ok plaintext => Ok (TextDecoder_decode plaintext)
          | Throw _ => Throw decrypt_error
          end, w)) /\
  (forall (password : jsstring) (saltBytes ivBytes : list byte) (w : World),
     length saltBytes <> length ivBytes ->
     fst (deriveKey Ideal.prims password saltBytes w) <>
     fst (deriveKey Ideal.prims password ivBytes w)).
Proof.
  split.
  - intros P E password w saltBytes ivBytes ciphertext Hs Hi He.
    rewrite decode_field_eq in Hs, Hi, He.
    eexists. split; [apply deriveKey_eq|].
    rewrite decryptData_eq, subtle_decrypt_derived.
    destruct (atob (EncryptedData.salt E)) as [s|]; [|discriminate Hs].
    destruct (atob (EncryptedData.iv E)) as [i|]; [|discriminate Hi].
    destruct (atob (EncryptedData.encrypted E)) as [c|]; [|discriminate He].
    assert (Uint8Array_from i = ivBytes) as -> by congruence.
    assert (Uint8Array_from c = ciphertext) as -> by congruence.
    destruct (AES_GCM_decrypt P _ _ _); reflexivity.
  - intros password saltBytes ivBytes w Hlen. rewrite !deriveKey_eq. cbn [fst].
    intros Heq.
    assert (Hk : Ideal.derive SHA_256 (TextEncoder_encode password) saltBytes 100000 256 =
                 Ideal.derive SHA_256 (TextEncoder_encode password) ivBytes 100000 256)
      by (change (PBKDF2 Ideal.prims SHA_256 (TextEncoder_encode password) saltBytes 100000 256 =
                  PBKDF2 Ideal.prims SHA_256 (TextEncoder_encode password) ivBytes 100000 256);
          congruence).
    apply (f_equal (@length byte)) in Hk.
    exact (ideal_derive_length SHA_256 _ _ _ 100000 256 Hlen Hk).
Qed.

(** C3. A changed salt is not detected (the code does not do what the claim
    says). For all primitives, a ciphertext made under the key derived from
    the IV, which the cipher opens under that key, is decrypted to its
    plaintext whatever bytes the [salt] field holds; with the ideal
    primitives this is so for every password, IV, plaintext and salt. *)
Theorem decryptData_accepts_any_salt :
  (forall (P : Primitives) (password : jsstring) (ivBytes plaintext saltBytes : list byte)
          (w : World),
     let material := PBKDF2 P SHA_256 (TextEncoder_encode password) ivBytes 100000 256 in
     AES_GCM_decrypt P material ivBytes (AES_GCM_encrypt P material ivBytes plaintext)
       = Some plaintext ->
     decryptData P
       (EncryptedData.mk
          (b64enc (spread (AES_GCM_encrypt P material ivBytes plaintext)))
          (b64enc (spread ivBytes))
          (b64enc (spread saltBytes)))
       password w = (Ok (TextDecoder_decode plaintext), w)) /\
  (forall (password : jsstring) (ivBytes plaintext saltBytes : list byte) (w : World),
     decryptData Ideal.prims
       (EncryptedData.mk
          (b64enc (spread
             (Ideal.seal
                (Ideal.derive SHA_256 (TextEncoder_encode password) ivBytes 100000 256)
                ivBytes plaintext)))
          (b64enc (spread ivBytes))
          (b64enc (spread saltBytes)))
       password w = (Ok (TextDecoder_decode plaintext), w)).
Proof.
  split.
  - intros P password ivBytes plaintext saltBytes w material Hopen.
    rewrite decryptData_encoded. fold material. rewrite Hopen. reflexivity.
  - intros password ivBytes plaintext saltBytes w.
    rewrite decryptData_encoded.
    cbn [AES_GCM_decrypt PBKDF2 Ideal.prims].
    rewrite ideal_open_seal. reflexivity.
Qed.

(** ** Instances of the theorems that have a hypothesis *)

(** [encryptData_shape] on the value [encryptData] returns for a key and a
    password, with the ideal primitives. *)
Lemma encryptData_shape_witness :
  exists E w1,
    encryptData Ideal.prims (js "sk-live-42") (js "hunter2") Ideal.world0 = (Ok E, w1) /\
    exists ivBytes saltBytes,
      (forall w', decode_field (EncryptedData.iv E) w' = (Ok ivBytes, w')) /\
      (forall w', decode_field (EncryptedData.salt E) w' = (Ok saltBytes, w')) /\
      length ivBytes = 12%nat /\ length saltBytes = 16%nat.
Proof.
  eexists. eexists. split; [running|].
  eapply (encryptData_shape Ideal.prims (js "sk-live-42") (js "hunter2") Ideal.world0).
  running.
Defined.

(** [addAPIKey_stores_encrypted] on a successful call, with the ideal
    primitives and a user signed in. *)
Lemma addAPIKey_stores_encrypted_witness :
  exists key w',
    addAPIKey Ideal.prims Ideal.form0 (js "hunter2") Ideal.world1 = (Ok (Added key), w') /\
    APIKey.encryptedKey key =
      EncryptedData.mk
        (b64enc (spread
           (Ideal.seal
              (Ideal.derive SHA_256 (TextEncoder_encode (js "hunter2"))
                 (tape Ideal.world1 16) 100000 256)
              (tape (advance 16 Ideal.world1) 12)
              (TextEncoder_encode (js "sk-live-42")))))
        (b64enc (spread (tape (advance 16 Ideal.world1) 12)))
        (b64enc (spread (tape Ideal.world1 16))) /\
    apiKeys w' = [key] /\
    localStorage w' !! storage_key (User.mk (js "u1")) = Some [key] /\
    APIKey.name key = js "prod key".
Proof.
  edestruct (addAPIKey_stores_encrypted Ideal.prims Ideal.form0 (js "hunter2")
               Ideal.world1)
    as (Hpin & _ & Hstore & Hname & _); [running|].
  destruct (Hstore _ eq_refl) as [Hkeys Hls].
  eexists. eexists. split; [running|].
  split; [exact Hpin|].
  split; [exact Hkeys|]. split; [exact Hls | exact Hname].
Defined.

(** ** Arrays too long for one call of [String.fromCharCode] *)



(** C5, counterexample. In an engine that accepts 65536 arguments, an array
    of 150000 bytes has no encoding: [btoa(String.fromCharCode(...b))]
    throws a [RangeError], so there is nothing to decode back to [b]. *)
Lemma base64_long_array_throws :
  base64_of_bytes (repeat x00 (N.to_nat 150000)) Ideal.world0 =
    (Throw RangeError, Ideal.world0) /\
  ~ (exists s w1,
       base64_of_bytes (repeat x00 (N.to_nat 150000)) Ideal.world0 = (Ok s, w1) /\
       decode_field s w1 = (Ok (repeat x00 (N.to_nat 150000)), w1)).
Proof.
  assert (H : base64_of_bytes (repeat x00 (N.to_nat 150000)) Ideal.world0 =
              (Throw RangeError, Ideal.world0)).
  { rewrite base64_of_bytes_eq, repeat_length. unfold accepts.
    rewrite N2Nat.id. reflexivity. }
  split; [exact H|].
  intros (s & w1 & Hs & _). rewrite H in Hs. discriminate Hs.
Qed.


(** * Further properties of the code *)

(** ** Saving the list *)

Lemma saveApiKeys_eq (keys : list APIKey.t) (w : World) :
  saveApiKeys keys w =
  match user w with
  | None => (Ok tt, w)
  | Some u =>
      if setItem_fits w (storage_key u) keys
      then (Ok tt, set_apiKeys keys (set_storage (storage_key u) keys w))
      else (Throw (DOMException "QuotaExceededError"), w)
  end.
Proof.
  unfold saveApiKeys. unfold bind at 1. unfold current_user at 1.
  destruct (user w) as [u|]; [|reflexivity].
  unfold bind, localStorage_setItem.
  destruct (setItem_fits w (storage_key u) keys); reflexivity.
Qed.

Lemma storage_key_inj (u u' : User.t) :
  storage_key u = storage_key u' -> User.id u = User.id u'.
Proof.
  unfold storage_key. rewrite !app_assoc. apply app_inv_head.
Qed.

Lemma updateAPIKey_eq (keyId : jsstring) (updates : APIKeyUpdates.t) (w : World) :
  updateAPIKey keyId updates w =
  match saveApiKeys
          (map (fun key => if id_is keyId key then merge_updates key updates else key)
               (apiKeys w)) w with
  | (Ok _, w') => (Ok tt, add_toast updated_toast w')
  | (Throw e, w') => (Throw e, w')
  end.
Proof. reflexivity. Qed.

Lemma deleteAPIKey_eq (keyId : jsstring) (w : World) :
  deleteAPIKey keyId w =
  match saveApiKeys (List.filter (fun key => negb (id_is keyId key)) (apiKeys w)) w with
  | (Ok _, w') => (Ok tt, add_toast deleted_toast w')
  | (Throw e, w') => (Throw e, w')
  end.
Proof. reflexivity. Qed.

Lemma toggleAPIKeyStatus_eq (keyId : jsstring) (w : World) :
  toggleAPIKeyStatus keyId w =
  saveApiKeys (map (fun key => if id_is keyId key then toggled key else key) (apiKeys w)) w.
Proof. reflexivity. Qed.

Lemma id_is_true (keyId : jsstring) (k : APIKey.t) :
  id_is keyId k = true <-> APIKey.id k = keyId.
Proof. unfold id_is. apply bool_decide_eq_true. Qed.

Lemma find_without_same (keyId : jsstring) (l : list APIKey.t) :
  find (id_is keyId) (List.filter (fun key => negb (id_is keyId key)) l) = None.
Proof.
  induction l as [|k l IH]; [reflexivity|].
  cbn [List.filter]. destruct (id_is keyId k) eqn:Hk; cbn [negb]; [exact IH|].
  cbn [find]. rewrite Hk. exact IH.
Qed.

Lemma find_without_other (keyId other : jsstring) (l : list APIKey.t) :
  other <> keyId ->
  find (id_is other) (List.filter (fun key => negb (id_is keyId key)) l) =
  find (id_is other) l.
Proof.
  intros Hne. induction l as [|k l IH]; [reflexivity|].
  cbn [List.filter find]. destruct (id_is keyId k) eqn:Hk; cbn [negb].
  - destruct (id_is other k) eqn:Ho; [|exact IH].
    apply id_is_true in Hk. apply id_is_true in Ho. congruence.
  - cbn [find]. destruct (id_is other k); [reflexivity | exact IH].
Qed.

(** X1. [saveApiKeys], with a user signed in and the write accepted, makes
    the given list the state of the hook and the value stored under the key
    of that user, and leaves what is stored for a user with another id
    untouched. *)
Theorem saveApiKeys_isolated (keys : list APIKey.t) (w w' : World) (u u' : User.t) :
  user w = Some u ->
  saveApiKeys keys w = (Ok tt, w') ->
  apiKeys w' = keys /\
  localStorage w' !! storage_key u = Some keys /\
  (User.id u' <> User.id u ->
   localStorage w' !! storage_key u' = localStorage w !! storage_key u').
Proof.
  intros Hu H. rewrite saveApiKeys_eq, Hu in H.
  destruct (setItem_fits w (storage_key u) keys); [|discriminate H].
  assert (Hw : w' = set_apiKeys keys (set_storage (storage_key u) keys w)) by congruence.
  subst w'. split; [reflexivity|]. split.
  - apply lookup_insert_eq.
  - intros Hne. apply lookup_insert_ne. intros Heq.
    apply Hne. symmetry. apply storage_key_inj, Heq.
Qed.

(** X2. After a [deleteAPIKey(keyId)] that returns, with a user signed in,
    no key has that id any more ([getAPIKeyById] gives [undefined]), a key
    with any other id is found as before, the remaining keys are the old
    ones in their order, and [localStorage] holds the same list as the
    state. *)
Theorem deleteAPIKey_removes (keyId : jsstring) (w w' : World) (u : User.t) :
  user w = Some u ->
  deleteAPIKey keyId w = (Ok tt, w') ->
  fst (getAPIKeyById keyId w') = Ok None /\
  (forall other, other <> keyId ->
     fst (getAPIKeyById other w') = fst (getAPIKeyById other w)) /\
  apiKeys w' = List.filter (fun key => negb (id_is keyId key)) (apiKeys w) /\
  localStorage w' !! storage_key u = Some (apiKeys w').
Proof.
  intros Hu H. rewrite deleteAPIKey_eq, saveApiKeys_eq, Hu in H.
  destruct (setItem_fits w (storage_key u) _); [|discriminate H].
  match type of H with
  | (_, ?W) = _ => assert (Hw : w' = W) by congruence
  end.
  subst w'. clear H.
  unfold getAPIKeyById, bind, current_apiKeys, ret. cbn [fst].
  change (apiKeys (add_toast _ (set_apiKeys ?l _))) with l.
  split; [f_equal; apply find_without_same|].
  split; [intros other Hne; f_equal; apply find_without_other, Hne|].
  split; [reflexivity|].
  unfold add_toast, set_apiKeys, set_storage, localStorage. apply lookup_insert_eq.
Qed.

(** X3. [updateAPIKey], [deleteAPIKey] and [toggleAPIKeyStatus] have no
    [try]: when [localStorage] refuses the write, each of them throws the
    [QuotaExceededError] of [setItem] and leaves the state, the storage and
    the toasts as they were. *)
Theorem mutators_throw_when_storage_full (keyId : jsstring) (updates : APIKeyUpdates.t)
    (w : World) (u : User.t) :
  user w = Some u ->
  (forall keys, setItem_fits w (storage_key u) keys = false) ->
  updateAPIKey keyId updates w = (Throw (DOMException "QuotaExceededError"), w) /\
  deleteAPIKey keyId w = (Throw (DOMException "QuotaExceededError"), w) /\
  toggleAPIKeyStatus keyId w = (Throw (DOMException "QuotaExceededError"), w).
Proof.
  intros Hu Hfull.
  rewrite updateAPIKey_eq, deleteAPIKey_eq, toggleAPIKeyStatus_eq.
  rewrite !saveApiKeys_eq, Hu, !Hfull. auto.
Qed.

(** X4. With nobody signed in nothing is saved, and success is reported all
    the same: [updateAPIKey] and [deleteAPIKey] show their toast of success,
    [toggleAPIKeyStatus] returns, and [addAPIKey], whenever the engine
    accepts the calls of [String.fromCharCode] in [encryptData], returns
    [{ success: true, key }] and shows "API Key Added" (otherwise it returns
    [{ success: false, error }] with the [RangeError]); in every case the
    list of keys and [localStorage] stay as they were. *)
Theorem signed_out_nothing_saved (P : Primitives) (keyId : jsstring)
    (updates : APIKeyUpdates.t) (formData : APIKeyFormData.t) (password : jsstring)
    (w : World) :
  user w = None ->
  updateAPIKey keyId updates w = (Ok tt, add_toast updated_toast w) /\
  deleteAPIKey keyId w = (Ok tt, add_toast deleted_toast w) /\
  toggleAPIKeyStatus keyId w = (Ok tt, w) /\
  exists r w',
    addAPIKey P formData password w = (Ok r, w') /\
    apiKeys w' = apiKeys w /\
    localStorage w' = localStorage w /\
    if accepts w
         (length
            (AES_GCM_encrypt P
               (PBKDF2 P SHA_256 (TextEncoder_encode password) (tape w 16) 100000 256)
               (tape (advance 16 w) 12)
               (TextEncoder_encode (APIKeyFormData.apiKey formData))))
       && accepts w 12 && accepts w 16
    then (exists key, r = Added key) /\
         hd_error (toasts w') = Some (added_toast (APIKeyFormData.name formData))
    else r = NotAdded RangeError /\
         hd_error (toasts w') = Some add_failed_toast.
Proof.
  intros Hu.
  rewrite updateAPIKey_eq, deleteAPIKey_eq, toggleAPIKeyStatus_eq.
  rewrite !saveApiKeys_eq, Hu.
  split; [reflexivity|]. split; [reflexivity|]. split; [reflexivity|].
  pose proof (addAPIKey_eq P formData password w) as Heq. cbv zeta in Heq.
  rewrite Hu in Heq.
  change (tape (set_isLoading true w) 16) with (tape w 16) in Heq.
  change (tape (advance 16 (set_isLoading true w)) 12) with (tape (advance 16 w) 12) in Heq.
  destruct (_ && _ && _).
  - eexists. eexists. split; [exact Heq|].
    split; [reflexivity|]. split; [reflexivity|].
    split; [eexists; reflexivity | reflexivity].
  - eexists. eexists. split; [exact Heq|].
    split; [reflexivity|]. split; [reflexivity|]. split; reflexivity.
Qed.

(** X5. [addAPIKey] never throws and always ends with [isLoading] false.
    When it returns [{ success: false, error }], the error is either the
    [RangeError] of a call of [String.fromCharCode] with more arguments than
    the engine accepts, or the [QuotaExceededError] of the write into
    [localStorage], made for a signed-in user once encryption went through;
    the error is logged, the failure toast is the last one shown, and the
    list of keys and [localStorage] are as before the call. *)
Theorem addAPIKey_outcome (P : Primitives) (formData : APIKeyFormData.t)
    (password : jsstring) (w : World) :
  exists r w',
    addAPIKey P formData password w = (Ok r, w') /\
    isLoading w' = false /\
    (forall error, r = NotAdded error ->
       let accepted :=
         accepts w
           (length
              (AES_GCM_encrypt P
                 (PBKDF2 P SHA_256 (TextEncoder_encode password) (tape w 16) 100000 256)
                 (tape (advance 16 w) 12)
                 (TextEncoder_encode (APIKeyFormData.apiKey formData))))
         && accepts w 12 && accepts w 16 in
       (error = RangeError /\ accepted = false \/
        error = DOMException "QuotaExceededError" /\ accepted = true /\ user w <> None) /\
       apiKeys w' = apiKeys w /\
       localStorage w' = localStorage w /\
       hd_error (toasts w') = Some add_failed_toast /\
       hd_error (console w') = Some ("Failed to add API key:"%string, error)).
Proof.
  pose proof (addAPIKey_eq P formData password w) as Heq. cbv zeta in Heq.
  change (tape (set_isLoading true w) 16) with (tape w 16) in Heq.
  change (tape (advance 16 (set_isLoading true w)) 12) with (tape (advance 16 w) 12) in Heq.
  cbv zeta. rewrite Heq. clear Heq.
  destruct (_ && _ && _).
  - destruct (user w) as [u|].
    + destruct (setItem_fits w (storage_key u) _).
      * eexists. eexists. split; [reflexivity|]. split; [reflexivity|].
        intros error Hr. discriminate Hr.
      * eexists. eexists. split; [reflexivity|]. split; [reflexivity|].
        intros error Hr. injection Hr as <-.
        split; [right; split; [reflexivity|]; split; [reflexivity | discriminate]|].
        repeat split.
    + eexists. eexists. split; [reflexivity|]. split; [reflexivity|].
      intros error Hr. discriminate Hr.
  - eexists. eexists. split; [reflexivity|]. split; [reflexivity|].
    intros error Hr. injection Hr as <-.
    split; [left; split; reflexivity|]. repeat split.
Qed.

Lemma toggled_twice (k : APIKey.t) : toggled (toggled k) = k.
Proof. destruct k. unfold toggled. cbn. rewrite negb_involutive. reflexivity. Qed.

Lemma map_toggled_twice (keyId : jsstring) (l : list APIKey.t) :
  map (fun key => if id_is keyId key then toggled key else key)
    (map (fun key => if id_is keyId key then toggled key else key) l) = l.
Proof.
  induction l as [|k l IH]; [reflexivity|].
  cbn [map]. rewrite IH. f_equal.
  destruct (id_is keyId k) eqn:Hk.
  - change (id_is keyId (toggled k)) with (id_is keyId k). rewrite Hk.
    apply toggled_twice.
  - rewrite Hk. reflexivity.
Qed.

(** X6. Two calls of [toggleAPIKeyStatus] with the same id, both returning
    and the second reading the state the first one left, give back the list
    of keys there was, in the state of the hook and, with a user signed in,
    in [localStorage]. *)
Theorem toggleAPIKeyStatus_twice (keyId : jsstring) (w w1 w2 : World) (u : User.t) :
  user w = Some u ->
  toggleAPIKeyStatus keyId w = (Ok tt, w1) ->
  toggleAPIKeyStatus keyId w1 = (Ok tt, w2) ->
  apiKeys w2 = apiKeys w /\
  localStorage w2 !! storage_key u = Some (apiKeys w).
Proof.
  intros Hu H1 H2.
  rewrite toggleAPIKeyStatus_eq, saveApiKeys_eq, Hu in H1.
  destruct (setItem_fits w (storage_key u) _); [|discriminate H1].
  match type of H1 with
  | (_, ?W) = _ => assert (Hw1 : w1 = W) by congruence
  end.
  clear H1. subst w1.
  rewrite toggleAPIKeyStatus_eq, saveApiKeys_eq in H2.
  change (user (set_apiKeys _ (set_storage _ _ w))) with (user w) in H2.
  rewrite Hu in H2.
  change (apiKeys (set_apiKeys ?l _)) with l in H2.
  rewrite map_toggled_twice in H2.
  destruct (setItem_fits _ (storage_key u) (apiKeys w)); [|discriminate H2].
  match type of H2 with
  | (_, ?W) = _ => assert (Hw2 : w2 = W) by congruence
  end.
  clear H2. subst w2. split; [reflexivity|].
  unfold set_apiKeys, set_storage, localStorage. apply lookup_insert_eq.
Qed.

Lemma updateAPIKey_list (keyId : jsstring) (updates : APIKeyUpdates.t) (w w' : World) :
  updateAPIKey keyId updates w = (Ok tt, w') ->
  apiKeys w' = apiKeys w \/
  apiKeys w' =
    map (fun key => if id_is keyId key then merge_updates key updates else key) (apiKeys w).
Proof.
  intros H. rewrite updateAPIKey_eq, saveApiKeys_eq in H.
  destruct (user w) as [u|].
  - destruct (setItem_fits w (storage_key u) _); [|discriminate H].
    match type of H with
    | (_, ?W) = _ => assert (Hw : w' = W) by congruence
    end.
    subst w'. right. reflexivity.
  - assert (Hw : w' = add_toast updated_toast w) by congruence.
    subst w'. left. reflexivity.
Qed.

(** X7. An [updateAPIKey] that returns keeps the number and the order of
    the keys and changes no key with another id; when the update holds no
    [encryptedKey] every stored ciphertext stays what it was, and when it
    holds no [id] every key keeps its id. *)
Theorem updateAPIKey_frame (keyId : jsstring) (updates : APIKeyUpdates.t) (w w' : World) :
  updateAPIKey keyId updates w = (Ok tt, w') ->
  Forall2 (fun k k' => APIKey.id k <> keyId -> k' = k) (apiKeys w) (apiKeys w') /\
  (APIKeyUpdates.encryptedKey updates = None ->
   map APIKey.encryptedKey (apiKeys w') = map APIKey.encryptedKey (apiKeys w)) /\
  (APIKeyUpdates.id updates = None ->
   map APIKey.id (apiKeys w') = map APIKey.id (apiKeys w)).
Proof.
  intros H. destruct (updateAPIKey_list keyId updates w w' H) as [-> | ->].
  - split; [|split; reflexivity].
    induction (apiKeys w); constructor; auto.
  - split; [|split].
    + induction (apiKeys w) as [|k l IH]; cbn [map]; constructor; [|exact IH].
      intros Hne. destruct (id_is keyId k) eqn:Hk; [|reflexivity].
      apply id_is_true in Hk. contradiction.
    + intros Hnone. rewrite map_map. apply map_ext. intros k.
      destruct (id_is keyId k); [|reflexivity].
      unfold merge_updates. rewrite Hnone. reflexivity.
    + intros Hnone. rewrite map_map. apply map_ext. intros k.
      destruct (id_is keyId k); [|reflexivity].
      unfold merge_updates. rewrite Hnone. reflexivity.
Qed.

Lemma find_snoc {A} (f : A -> bool) (l : list A) (x : A) :
  find f (l ++ [x]) =
  match find f l with
  | Some y => Some y
  | None => if f x then Some x else None
  end.
Proof.
  induction l as [|a l IH]; [reflexivity|].
  cbn [app find]. destruct (f a); [reflexivity | exact IH].
Qed.

(** What a successful [addAPIKey] leaves, with a user signed in. *)
Lemma addAPIKey_added (P : Primitives) (formData : APIKeyFormData.t)
    (password : jsstring) (w w' : World) (key : APIKey.t) (u : User.t) :
  user w = Some u ->
  addAPIKey P formData password w = (Ok (Added key), w') ->
  apiKeys w' = apiKeys w ++ [key] /\
  user w' = Some u /\
  setItem_fits w' = setItem_fits w /\
  APIKey.encryptedKey key =
    EncryptedData.mk
      (b64enc (spread
         (AES_GCM_encrypt P
            (PBKDF2 P SHA_256 (TextEncoder_encode password) (tape w 16) 100000 256)
            (tape (advance 16 w) 12)
            (TextEncoder_encode (APIKeyFormData.apiKey formData)))))
      (b64enc (spread (tape (advance 16 w) 12)))
      (b64enc (spread (tape w 16))).
Proof.
  intros Hu H.
  destruct (addAPIKey_returns P formData password w w' key H) as (Hk & _ & Hw).
  cbv zeta in Hk, Hw. rewrite Hu in Hw. destruct Hw as [_ ->].
  split; [reflexivity|]. split; [exact Hu|]. split; [reflexivity|].
  rewrite Hk. reflexivity.
Qed.

(** X8. After a successful [addAPIKey], with a user signed in,
    [getAPIKeyById] on the id of the new key finds a key: the new one when
    no older key has that id, and otherwise the first older key with that
    id. *)
Theorem getAPIKeyById_after_add (P : Primitives) (formData : APIKeyFormData.t)
    (password : jsstring) (w w' : World) (key : APIKey.t) (u : User.t) :
  user w = Some u ->
  addAPIKey P formData password w = (Ok (Added key), w') ->
  fst (getAPIKeyById (APIKey.id key) w') =
  Ok (Some (default key (find (id_is (APIKey.id key)) (apiKeys w)))).
Proof.
  intros Hu H. destruct (addAPIKey_added P formData password w w' key u Hu H) as (Hl & _).
  unfold getAPIKeyById, bind, current_apiKeys, ret. cbn [fst].
  rewrite Hl, find_snoc.
  destruct (find (id_is (APIKey.id key)) (apiKeys w)); [reflexivity|].
  replace (id_is (APIKey.id key) key) with true; [reflexivity|].
  symmetry. apply id_is_true. reflexivity.
Qed.

(** ** Counting uses: [usageCount + 1] in doubles *)

Lemma iter_pos_iter {A} (f : A -> A) (p : positive) (x : A) :
  SpecFloat.iter_pos f p x = Pos.iter f x p.
Proof.
  revert x. induction p as [p IH|p IH|]; intros x; cbn [SpecFloat.iter_pos Pos.iter].
  - rewrite !IH, !Pos.iter_swap. reflexivity.
  - rewrite !IH. reflexivity.
  - reflexivity.
Qed.

Lemma digits2_shifted (k m : positive) :
  digits2_pos (Pos.iter xO m k) = (digits2_pos m + k)%positive.
Proof.
  induction k as [|k IH] using Pos.peano_ind.
  - cbn. lia.
  - rewrite Pos.iter_succ. cbn [digits2_pos]. rewrite IH. 
    change PosDef.Pos.succ with Pos.succ. lia.
Qed.

Lemma shr_shifted (k m : positive) :
  Pos.iter shr_1 {| shr_m := Z.pos (Pos.iter xO m k); shr_r := false; shr_s := false |} k =
  {| shr_m := Z.pos m; shr_r := false; shr_s := false |}.
Proof.
  revert m. induction k as [|k IH] using Pos.peano_ind; intros m.
  - reflexivity.
  - rewrite Pos.iter_succ_r, Pos.iter_succ. cbn [shr_1 orb]. apply IH.
Qed.

Lemma Zpos_shifted (k m : positive) :
  Z.pos (Pos.iter xO m k) = (Z.pos m * 2 ^ Z.pos k)%Z.
Proof.
  induction k as [|k IH] using Pos.peano_ind.
  - cbn. lia.
  - rewrite Pos.iter_succ, Pos2Z.inj_xO, IH, Pos2Z.inj_succ, Z.pow_succ_r by lia. lia.
Qed.


Lemma fexp_normal (e : Z) : (-1021 <= e)%Z -> fexp 53 1024 e = (e - 53)%Z.
Proof. intros He. unfold fexp, emin. lia. Qed.

(** A mantissa of exactly 53 digits is not shifted. *)
Lemma shr_fexp_exact (m : positive) (e : Z) :
  digits2_pos m = 53%positive -> (-1074 <= e)%Z ->
  shr_fexp 53 1024 (Z.pos m) e loc_Exact =
  ({| shr_m := Z.pos m; shr_r := false; shr_s := false |}, e).
Proof.
  intros Hd He. unfold shr_fexp. cbn [Zdigits2 shr_record_of_loc]. rewrite Hd.
  rewrite fexp_normal by lia. replace (53 + e - 53 - e)%Z with 0%Z by lia.
  reflexivity.
Qed.

(** Rounding when the first shift is exact and leaves 53 digits. *)
Lemma binary_round_aux_via (mx ex : Z) (m : positive) (e : Z) :
  shr_fexp 53 1024 mx ex loc_Exact =
    ({| shr_m := Z.pos m; shr_r := false; shr_s := false |}, e) ->
  digits2_pos m = 53%positive -> (-1074 <= e <= 971)%Z ->
  binary_round_aux 53 1024 false mx ex loc_Exact = S754_finite false m e.
Proof.
  intros Hs Hd He. unfold binary_round_aux. rewrite Hs.
  cbn [shr_m loc_of_shr_record round_nearest_even].
  rewrite shr_fexp_exact by (try exact Hd; lia). cbn [shr_m].
  replace (e <=? 1024 - 53)%Z with true; [reflexivity|].
  symmetry. apply Z.leb_le. lia.
Qed.

Lemma binary_round_aux_exact (m : positive) (e : Z) :
  digits2_pos m = 53%positive -> (-1074 <= e <= 971)%Z ->
  binary_round_aux 53 1024 false (Z.pos m) e loc_Exact = S754_finite false m e.
Proof.
  intros Hd He. apply binary_round_aux_via; [|exact Hd | exact He].
  apply shr_fexp_exact; [exact Hd | lia].
Qed.

(** The double of a positive integer with at most 53 binary digits. *)
Lemma Number_of_short (p k : positive) :
  (digits2_pos p + k = 53)%positive ->
  Number_of_Z (Z.pos p) = S754_finite false (Pos.iter xO p k) (Z.neg k).
Proof.
  intros Hd. unfold Number_of_Z, binary_normalize, binary_round.
  rewrite fexp_normal by lia.
  replace (Z.pos (digits2_pos p) + 0 - 53)%Z with (Z.neg k) by lia.
  unfold shl_align. rewrite Z.sub_0_r.
  apply binary_round_aux_exact; [|lia].
  rewrite digits2_shifted. exact Hd.
Qed.

Lemma Number_of_full (p : positive) :
  digits2_pos p = 53%positive ->
  Number_of_Z (Z.pos p) = S754_finite false p 0.
Proof.
  intros Hd. unfold Number_of_Z, binary_normalize, binary_round.
  rewrite fexp_normal by lia. rewrite Hd.
  unfold shl_align. cbn [Z.add Z.sub Z.opp Z.pos_sub Pos.compare Pos.compare_cont].
  change (53 + 0 - 53 - 0)%Z with 0%Z. cbv iota beta.
  apply binary_round_aux_exact; [exact Hd | lia].
Qed.

(** A mantissa shifted left by 52 places, at exponent -52, is rounded to
    the double of the integer it stands for. *)
Lemma binary_round_shifted (q : positive) :
  (digits2_pos q <= 53)%positive ->
  binary_round 53 1024 false (Pos.iter xO q 52) (-52) = Number_of_Z (Z.pos q).
Proof.
  intros Hd. unfold binary_round. rewrite digits2_shifted.
  rewrite fexp_normal by lia.
  unfold shl_align.
  destruct (Z.pos (digits2_pos q + 52) + -52 - 53 - -52)%Z as [|j|j] eqn:Hj; [| |lia].
  - assert (Hq : digits2_pos q = 1%positive) by lia.
    rewrite (Number_of_short q 52) by (rewrite Hq; reflexivity).
    apply binary_round_aux_exact; [|lia]. rewrite digits2_shifted, Hq. reflexivity.
  - assert (Hs : shr_fexp 53 1024 (Z.pos (Pos.iter xO q 52)) (-52) loc_Exact =
                 (Pos.iter shr_1
                    {| shr_m := Z.pos (Pos.iter xO q 52); shr_r := false; shr_s := false |} j,
                  (-52 + Z.pos j)%Z)).
    { unfold shr_fexp. cbn [Zdigits2 shr_record_of_loc]. rewrite digits2_shifted.
      rewrite fexp_normal by lia.
      replace (Z.pos (digits2_pos q + 52) + -52 - 53 - -52)%Z with (Z.pos j) by lia.
      unfold shr. rewrite iter_pos_iter. reflexivity. }
    destruct (Pos.eq_dec (digits2_pos q) 53%positive) as [H53|H53].
    + assert (j = 52%positive) as -> by lia.
      rewrite shr_shifted in Hs.
      rewrite (binary_round_aux_via _ _ _ _ Hs H53) by lia.
      rewrite Number_of_full by exact H53. reflexivity.
    + assert (Hk : exists k, (j + k = 52)%positive /\ (digits2_pos q + k = 53)%positive).
      { exists (52 - j)%positive. lia. }
      destruct Hk as (k & Hjk & Hqk).
      assert (Heq : Pos.iter xO q 52 = Pos.iter xO (Pos.iter xO q k) j)
        by (rewrite <- Pos.iter_add, Hjk; reflexivity).
      rewrite Heq in Hs |- *. rewrite shr_shifted in Hs.
      rewrite (binary_round_aux_via _ _ _ _ Hs);
        [| rewrite digits2_shifted; exact Hqk | lia].
      rewrite (Number_of_short q k Hqk). f_equal. lia.
Qed.

Lemma digits2_bound (p : positive) :
  (2 ^ (Z.pos (digits2_pos p) - 1) <= Z.pos p < 2 ^ Z.pos (digits2_pos p))%Z.
Proof.
  induction p as [p IH|p IH|]; cbn [digits2_pos]; change PosDef.Pos.succ with Pos.succ.
  - rewrite Pos2Z.inj_succ. change (Z.pos p~1) with (2 * Z.pos p + 1)%Z.
    replace (Z.succ (Z.pos (digits2_pos p)) - 1)%Z with (Z.succ (Z.pos (digits2_pos p) - 1))%Z
      by lia.
    rewrite !Z.pow_succ_r by lia.
    generalize dependent (2 ^ (Z.pos (digits2_pos p) - 1))%Z.
    generalize (2 ^ Z.pos (digits2_pos p))%Z. lia.
  - rewrite Pos2Z.inj_succ. change (Z.pos p~0) with (2 * Z.pos p)%Z.
    replace (Z.succ (Z.pos (digits2_pos p)) - 1)%Z with (Z.succ (Z.pos (digits2_pos p) - 1))%Z
      by lia.
    rewrite !Z.pow_succ_r by lia.
    generalize dependent (2 ^ (Z.pos (digits2_pos p) - 1))%Z.
    generalize (2 ^ Z.pos (digits2_pos p))%Z. lia.
  - cbn. lia.
Qed.

Lemma digits2_le_53 (p : positive) :
  (Z.pos p < 2 ^ 53)%Z -> (digits2_pos p <= 53)%positive.
Proof.
  intros Hp. destruct (Pos.leb_spec (digits2_pos p) 53) as [H|H]; [exact H|].
  exfalso. pose proof (digits2_bound p) as [Hlo _].
  assert (2 ^ 53 <= 2 ^ (Z.pos (digits2_pos p) - 1))%Z
    by (apply Z.pow_le_mono_r; lia).
  lia.
Qed.

Lemma shl_align_52 (p k : positive) :
  (k <= 52)%positive ->
  shl_align (Pos.iter xO p k) (Z.neg k) (-52) = (Pos.iter xO p 52, (-52)%Z).
Proof.
  intros Hk. unfold shl_align.
  destruct (-52 - Z.neg k)%Z as [|j|j] eqn:Hj; [|lia|].
  - assert (k = 52%positive) as -> by lia. reflexivity.
  - assert (Hjk : (j + k = 52)%positive) by lia.
    rewrite <- Pos.iter_add, Hjk. reflexivity.
Qed.

Lemma shifted_succ (p : positive) :
  (Z.pos (Pos.iter xO p 52) + 4503599627370496)%Z = Z.pos (Pos.iter xO (p + 1)%positive 52).
Proof. rewrite !Zpos_shifted. lia. Qed.

(** Adding one to a count below 2^53 is exact; at 2^53 - 1 the sum is
    2^53, the last count a double can tell from the next. *)
Lemma Number_add_one (n : Z) :
  (0 <= n < 2 ^ 53)%Z ->
  Number_add (Number_of_Z n) (Number_of_Z 1) = Number_of_Z (n + 1).
Proof.
  intros Hn. destruct n as [|p|p]; [reflexivity| |lia].
  destruct (Z.eq_dec (Z.pos p) (2 ^ 53 - 1)%Z) as [Hmax|Hmax].
  { injection Hmax as ->. reflexivity. }
  assert (Hq : (digits2_pos (p + 1)%positive <= 53)%positive) by (apply digits2_le_53; lia).
  assert (Hp : (digits2_pos p <= 53)%positive) by (apply digits2_le_53; lia).
  replace (Z.pos p + 1)%Z with (Z.pos (p + 1)%positive) by lia.
  rewrite <- (binary_round_shifted (p + 1)%positive Hq).
  change (Number_of_Z 1) with (S754_finite false 4503599627370496 (-52)).
  destruct (Pos.eq_dec (digits2_pos p) 53%positive) as [H53|H53].
  - rewrite Number_of_full by exact H53.
    unfold Number_add, SFadd. 
    change (Z.min 0 (-52)) with (-52)%Z.
    change (shl_align p 0 (-52)) with (Pos.iter xO p 52, (-52)%Z).
    change (shl_align 4503599627370496 (-52) (-52)) with (4503599627370496%positive, (-52)%Z).
    cbn [fst cond_Zopp]. rewrite shifted_succ. reflexivity.
  - assert (Hk : exists k, (digits2_pos p + k = 53)%positive /\ (k <= 52)%positive).
    { exists (53 - digits2_pos p)%positive. lia. }
    destruct Hk as (k & Hpk & Hk).
    rewrite (Number_of_short p k Hpk).
    unfold Number_add, SFadd.
    replace (Z.min (Z.neg k) (-52)) with (-52)%Z by lia.
    rewrite shl_align_52 by exact Hk.
    change (shl_align 4503599627370496 (-52) (-52)) with (4503599627370496%positive, (-52)%Z).
    cbn [fst cond_Zopp]. rewrite shifted_succ. reflexivity.
Qed.

Example Number_add_samples :
  Number_add (Number_of_Z 3) (Number_of_Z 1) = Number_of_Z 4 /\
  Number_add (Number_of_Z (2 ^ 53)) (Number_of_Z 1) = Number_of_Z (2 ^ 53) /\
  Number_add S754_nan (Number_of_Z 1) = S754_nan.
Proof. repeat split. Qed.

(** X9. When [decryptAPIKey] returns a plaintext, with a user signed in, it
    is the decryption of the first key with that id; every key with that id
    has its [lastUsed] set to the time of the call and its [usageCount]
    replaced by [usageCount + 1], the sum of doubles: one more for a count
    from 0 to 2^53 - 1, and the same count again at 2^53; every other key is
    unchanged, number and order are kept, [localStorage] holds the new list,
    and no toast is shown. *)
Theorem decryptAPIKey_success (P : Primitives) (keyId password plaintext : jsstring)
    (w w' : World) (u : User.t) :
  user w = Some u ->
  decryptAPIKey P keyId password w = (Ok (Some plaintext), w') ->
  (exists key,
     find (id_is keyId) (apiKeys w) = Some key /\
     fst (decryptData P (APIKey.encryptedKey key) password w) = Ok plaintext) /\
  Forall2 (fun k k' => k' = if bool_decide (APIKey.id k = keyId)
                            then used_at (clock w) k else k)
    (apiKeys w) (apiKeys w') /\
  (forall (k : APIKey.t) (n : Z),
     APIKey.usageCount k = Number_of_Z n ->
     ((0 <= n < 2 ^ 53)%Z ->
      APIKey.usageCount (used_at (clock w) k) = Number_of_Z (n + 1)) /\
     (n = (2 ^ 53)%Z ->
      APIKey.usageCount (used_at (clock w) k) = Number_of_Z (2 ^ 53))) /\
  localStorage w' !! storage_key u = Some (apiKeys w') /\
  toasts w' = toasts w.
Proof.
  intros Hu H. rewrite decryptAPIKey_eq, Hu in H.
  destruct (find (id_is keyId) (apiKeys w)) as [key|]; [|discriminate H].
  destruct (fst (decryptData P (APIKey.encryptedKey key) password w)) as [pt|e] eqn:Hd;
    [|discriminate H].
  cbv zeta in H.
  destruct (setItem_fits w (storage_key u) _); [|discriminate H].
  match type of H with
  | (_, ?W) = _ =>
      assert (Hw : w' = W) by congruence; assert (Hp : pt = plaintext) by congruence
  end.
  clear H. subst w' pt.
  split; [exists key; auto|].
  change (apiKeys (set_apiKeys ?l _)) with l.
  split; [|split; [|split; [|reflexivity]]].
  - induction (apiKeys w) as [|k l IH]; cbn [map]; constructor; [reflexivity | exact IH].
  - intros k n Hk. unfold used_at. cbn [APIKey.usageCount]. rewrite Hk. split.
    + apply Number_add_one.
    + intros ->. reflexivity.
  - unfold set_apiKeys, set_storage, localStorage. apply lookup_insert_eq.
Qed.

(** X10. The key [addAPIKey] has just stored is not decrypted by
    [decryptAPIKey] with the password it was stored with: whenever AES-GCM
    refuses, under the key derived from the IV, the ciphertext made under
    the key derived from the salt, and no older key has the id of the new
    key, [decryptAPIKey] on that id returns [null], shows "Decryption
    Failed" and changes no key. (With an older key of the same id it is the
    older key that [decryptAPIKey] finds.) *)
Theorem added_key_not_decrypted (P : Primitives) (formData : APIKeyFormData.t)
    (password : jsstring) (w w' : World) (key : APIKey.t) (u : User.t) :
  user w = Some u ->
  addAPIKey P formData password w = (Ok (Added key), w') ->
  find (id_is (APIKey.id key)) (apiKeys w) = None ->
  AES_GCM_decrypt P
    (PBKDF2 P SHA_256 (TextEncoder_encode password) (tape (advance 16 w) 12) 100000 256)
    (tape (advance 16 w) 12)
    (AES_GCM_encrypt P
       (PBKDF2 P SHA_256 (TextEncoder_encode password) (tape w 16) 100000 256)
       (tape (advance 16 w) 12)
       (TextEncoder_encode (APIKeyFormData.apiKey formData))) = None ->
  exists w'',
    decryptAPIKey P (APIKey.id key) password w' = (Ok None, w'') /\
    apiKeys w'' = apiKeys w' /\
    localStorage w'' = localStorage w' /\
    hd_error (toasts w'') = Some decrypt_failed_toast.
Proof.
  intros Hu H Hfresh Hreject.
  destruct (addAPIKey_added P formData password w w' key u Hu H) as (Hl & _ & _ & Henc).
  rewrite decryptAPIKey_eq, Hl, find_snoc, Hfresh.
  replace (id_is (APIKey.id key) key) with true
    by (symmetry; apply id_is_true; reflexivity).
  rewrite Henc, decryptData_encoded, Hreject. cbn [fst].
  eexists. split; [reflexivity|].
  split; [exact Hl|]. split; reflexivity.
Qed.

(** ** Identifiers *)

Lemma hex_digit_inj (d d' : N) :
  d < 16 -> d' < 16 -> hex_digit d = hex_digit d' -> d = d'.
Proof.
  intros Hd Hd' Heq.
  assert (Htab : forallb (fun i => forallb (fun j =>
                    implb (hex_digit (N.of_nat i) =? hex_digit (N.of_nat j))
                          (Nat.eqb i j)) (seq 0 16)) (seq 0 16) = true) by reflexivity.
  rewrite forallb_forall in Htab.
  specialize (Htab (N.to_nat d)). rewrite forallb_forall in Htab.
  specialize (Htab ltac:(apply in_seq; lia) (N.to_nat d') ltac:(apply in_seq; lia)).
  rewrite !N2Nat.id, Heq, N.eqb_refl in Htab. cbn [implb] in Htab.
  apply Nat.eqb_eq in Htab. lia.
Qed.

Lemma two_hex_digits_inj (b b' : byte) :
  [hex_digit (Byte.to_N b / 16); hex_digit (Byte.to_N b mod 16)] =
  [hex_digit (Byte.to_N b' / 16); hex_digit (Byte.to_N b' mod 16)] ->
  b = b'.
Proof.
  intros Heq.
  pose proof (to_N_le_255 b) as Hb. pose proof (to_N_le_255 b') as Hb'.
  assert (Hhi : Byte.to_N b / 16 = Byte.to_N b' / 16).
  { apply hex_digit_inj; [apply N.Div0.div_lt_upper_bound; lia..| congruence]. }
  assert (Hlo : Byte.to_N b mod 16 = Byte.to_N b' mod 16).
  { apply hex_digit_inj; [apply N.mod_upper_bound; lia..| congruence]. }
  assert (HN : Byte.to_N b = Byte.to_N b').
  { rewrite (N.div_mod (Byte.to_N b) 16), (N.div_mod (Byte.to_N b') 16) by lia.
    rewrite Hhi, Hlo. reflexivity. }
  pose proof (Byte.of_to_N b) as H1. pose proof (Byte.of_to_N b') as H2.
  rewrite HN in H1. congruence.
Qed.

Lemma hex_of_bytes_inj (l l' : list byte) :
  length l = length l' ->
  concat (map (fun b => [hex_digit (Byte.to_N b / 16); hex_digit (Byte.to_N b mod 16)]) l) =
  concat (map (fun b => [hex_digit (Byte.to_N b / 16); hex_digit (Byte.to_N b mod 16)]) l') ->
  l = l'.
Proof.
  revert l'. induction l as [|b l IH]; intros [|b' l'] Hlen Heq;
    try discriminate Hlen; [reflexivity|].
  cbn [map concat app] in Heq.
  assert (Hb : b = b') by (apply two_hex_digits_inj; congruence).
  subst b'. f_equal. apply IH; [cbn [length] in Hlen; lia | congruence].
Qed.

(** X11. The id [generateSecureId] returns determines the 16 random bytes
    it was made from: two calls return the same id exactly when they read
    the same bytes, so the text form adds no collision. *)
Theorem generateSecureId_injective (w1 w2 : World) :
  fst (generateSecureId w1) = fst (generateSecureId w2) <-> tape w1 16 = tape w2 16.
Proof.
  rewrite !generateSecureId_eq. cbn [fst]. split.
  - intros Heq. apply hex_of_bytes_inj; [rewrite !tape_length; reflexivity | congruence].
  - intros ->. reflexivity.
Qed.

(** ** Malformed fields *)

Lemma strip_padding_keeps (c : N) (d : jsstring) :
  In c d -> c <> pad_char -> In c (strip_padding d).
Proof.
  intros Hin Hc. unfold strip_padding.
  apply in_rev in Hin.
  destruct (rev d) as [|c1 [|c2 r]] eqn:Hrev.
  - destruct Hin.
  - destruct (N.eqb_spec c1 pad_char) as [->|_].
    + destruct Hin as [<-|[]]. contradiction.
    + apply in_rev. rewrite Hrev. exact Hin.
  - destruct (N.eqb_spec c1 pad_char) as [->|_].
    + destruct Hin as [<-|Hin]; [contradiction|].
      destruct (N.eqb_spec c2 pad_char) as [->|_].
      * destruct Hin as [<-|Hin]; [contradiction|]. apply in_rev in Hin. exact Hin.
      * apply in_rev in Hin. exact Hin.
    + apply in_rev. rewrite Hrev. exact Hin.
Qed.

Lemma sextets_of_outside (c : N) (d : jsstring) :
  In c d -> dec6 c = None -> sextets_of d = None.
Proof.
  intros Hin Hc. induction d as [|a d IH]; [destruct Hin|].
  cbn [sextets_of]. destruct Hin as [->|Hin].
  - rewrite Hc. reflexivity.
  - rewrite (IH Hin). destruct (dec6 a); reflexivity.
Qed.

(** [atob] refuses a text that holds a character which is neither of the
    alphabet, nor white space, nor [=]. *)
Lemma atob_outside (c : N) (s : jsstring) :
  In c s -> dec6 c = None -> is_ascii_whitespace c = false -> c <> pad_char ->
  atob s = Throw (DOMException "InvalidCharacterError").
Proof.
  intros Hin Hdec Hws Hpad. unfold atob, atob_tail.
  assert (Hd : In c (List.filter (fun c => negb (is_ascii_whitespace c)) s)).
  { apply filter_In. split; [exact Hin | rewrite Hws; reflexivity]. }
  set (d := List.filter (fun c => negb (is_ascii_whitespace c)) s) in *.
  assert (Hd' : In c (if N.of_nat (length d) mod 4 =? 0 then strip_padding d else d)).
  { destruct (N.of_nat (length d) mod 4 =? 0); [apply strip_padding_keeps|]; assumption. }
  cbv zeta.
  set (d' := if N.of_nat (length d) mod 4 =? 0 then strip_padding d else d) in *.
  destruct (N.of_nat (length d') mod 4 =? 1); [reflexivity|].
  rewrite (sextets_of_outside c d' Hd' Hdec). reflexivity.
Qed.

(** X12. [decryptData] throws its one error, "Failed to decrypt data. Check
    your password.", and touches nothing, as soon as one of the three
    fields holds a character that is neither of the base64 alphabet, nor
    white space, nor [=]: also when that field is [salt], whose bytes it
    does not use. *)
Theorem decryptData_rejects_malformed (P : Primitives) (E : EncryptedData.t)
    (password : jsstring) (w : World) (c : N) :
  In c (EncryptedData.salt E) \/ In c (EncryptedData.iv E) \/
    In c (EncryptedData.encrypted E) ->
  dec6 c = None -> is_ascii_whitespace c = false -> c <> pad_char ->
  decryptData P E password w = (Throw decrypt_error, w).
Proof.
  intros Hin Hdec Hws Hpad. rewrite decryptData_eq.
  destruct Hin as [Hin | [Hin | Hin]];
    rewrite (atob_outside c _ Hin Hdec Hws Hpad).
  - reflexivity.
  - destruct (atob (EncryptedData.salt E)); reflexivity.
  - destruct (atob (EncryptedData.salt E)); [|reflexivity].
    destruct (atob (EncryptedData.iv E)); reflexivity.
Qed.

(** ** The text of the fields *)

Lemma b64enc_length_exact (l : list N) :
  length (b64enc l) = (4 * ((length l + 2) / 3))%nat.
Proof.
  induction l as [| x | x y | x y z r IH] using list_ind3; try reflexivity.
  cbn [b64enc length]. rewrite IH.
  replace (S (S (S (length r))) + 2)%nat with ((length r + 2) + 1 * 3)%nat by lia.
  rewrite Nat.div_add by lia. lia.
Qed.

Lemma dec6_enc6_some (v : N) : v < 64 -> dec6 (enc6 v) <> None.
Proof. intros Hv. rewrite dec6_enc6 by exact Hv. discriminate. Qed.

Ltac alphabet_step :=
  first [ apply List.Forall_nil
        | apply List.Forall_cons;
          [ first [ left; apply dec6_enc6_some; assumption | right; reflexivity ] | ] ].

Lemma b64enc_alphabet (l : list N) :
  Forall (fun x => x <= 255) l ->
  Forall (fun c => dec6 c <> None \/ c = pad_char) (b64enc l).
Proof.
  induction l as [| x | x y | x y z r IH] using list_ind3; intros Hall.
  - constructor.
  - inversion_clear Hall as [|? ? Hx _].
    destruct (regroup_bounds x 0 0) as (? & _ & _ & _ & ? & _); [lia..|].
    cbn [b64enc]. repeat alphabet_step.
  - inversion_clear Hall as [|? ? Hx Hall']. inversion_clear Hall' as [|? ? Hy _].
    destruct (regroup_bounds x y 0) as (? & ? & _ & _ & _ & ?); [lia..|].
    cbn [b64enc]. repeat alphabet_step.
  - inversion_clear Hall as [|? ? Hx Hall']. inversion_clear Hall' as [|? ? Hy Hall''].
    inversion_clear Hall'' as [|? ? Hz Hr].
    destruct (regroup_bounds x y z) as (? & ? & ? & ? & _ & _); [lia..|].
    cbn [b64enc]. do 4 alphabet_step. apply IH, Hr.
Qed.

(** X13. The three fields [encryptData] returns are base64 text: only
    characters of the alphabet and [=]; the [iv] field has 16 characters,
    the [salt] field 24, and the [encrypted] field four characters for
    every three bytes of ciphertext, the last group filled up. *)
Theorem encryptData_fields_text (P : Primitives) (data password : jsstring)
    (w w1 : World) (E : EncryptedData.t) :
  encryptData P data password w = (Ok E, w1) ->
  length (EncryptedData.iv E) = 16%nat /\
  length (EncryptedData.salt E) = 24%nat /\
  length (EncryptedData.encrypted E) =
    (4 * ((length
             (AES_GCM_encrypt P
                (PBKDF2 P SHA_256 (TextEncoder_encode password) (tape w 16) 100000 256)
                (tape (advance 16 w) 12) (TextEncoder_encode data)) + 2) / 3))%nat /\
  Forall (fun c => dec6 c <> None \/ c = pad_char)
    (EncryptedData.encrypted E ++ EncryptedData.iv E ++ EncryptedData.salt E).
Proof.
  intros H. apply encryptData_returns in H. destruct H as [-> _].
  unfold EncryptedData.iv, EncryptedData.salt, EncryptedData.encrypted.
  rewrite !b64enc_length_exact. unfold spread. rewrite !length_map, !tape_length.
  split; [reflexivity|]. split; [reflexivity|]. split; [reflexivity|].
  rewrite !Forall_app. repeat split; apply b64enc_alphabet, spread_bounded.
Qed.

(** ** Selecting agents *)

Lemma includes_app (x : jsstring) (l l' : list jsstring) :
  includes x (l ++ l') = includes x l || includes x l'.
Proof. unfold includes. apply existsb_app. Qed.

Lemma includes_without (x other : jsstring) (l : list jsstring) :
  includes other (List.filter (fun id => negb (bool_decide (id = x))) l) =
  includes other l && negb (bool_decide (other = x)).
Proof.
  induction l as [|a l IH]; [reflexivity|].
  cbn [List.filter]. unfold includes in *.
  destruct (bool_decide_reflect (a = x)) as [->|Hax]; cbn [negb existsb].
  - rewrite IH. destruct (bool_decide_reflect (x = other)) as [->|Hxo]; cbn [orb].
    + rewrite (bool_decide_eq_true_2 _ eq_refl). cbn [negb]. rewrite !andb_false_r. reflexivity.
    + reflexivity.
  - rewrite IH. destruct (bool_decide_reflect (a = other)) as [->|Hao]; cbn [orb].
    + rewrite (bool_decide_eq_false_2 _ Hax). reflexivity.
    + reflexivity.
Qed.

Lemma filter_absent (x : jsstring) (l : list jsstring) :
  includes x l = false ->
  List.filter (fun id => negb (bool_decide (id = x))) l = l.
Proof.
  induction l as [|a l IH]; [reflexivity|].
  unfold includes. cbn [existsb List.filter]. intros H.
  apply orb_false_iff in H. destruct H as [Ha Hl].
  rewrite Ha. cbn [negb]. f_equal. apply IH, Hl.
Qed.

(** X14. [handleAgentToggle] flips whether the agent is selected and
    changes the selection of no other agent. Toggling twice an agent that
    was not selected gives the list back; toggling twice one that was
    selected moves it to the end, once, however often it occurred. *)
Theorem handleAgentToggle_flips (agentId : jsstring) (prev : list jsstring) :
  includes agentId (handleAgentToggle agentId prev) = negb (includes agentId prev) /\
  (forall other, other <> agentId ->
     includes other (handleAgentToggle agentId prev) = includes other prev) /\
  handleAgentToggle agentId (handleAgentToggle agentId prev) =
    (if includes agentId prev
     then List.filter (fun id => negb (bool_decide (id = agentId))) prev ++ [agentId]
     else prev).
Proof.
  assert (Hself : includes agentId [agentId] = true).
  { unfold includes. cbn [existsb]. rewrite (bool_decide_eq_true_2 _ eq_refl). reflexivity. }
  assert (Hgone : includes agentId
            (List.filter (fun id => negb (bool_decide (id = agentId))) prev) = false).
  { rewrite includes_without, (bool_decide_eq_true_2 _ eq_refl). apply andb_false_r. }
  destruct (includes agentId prev) eqn:Hin.
  - assert (Hstep : handleAgentToggle agentId prev =
              List.filter (fun id => negb (bool_decide (id = agentId))) prev)
      by (unfold handleAgentToggle; rewrite Hin; reflexivity).
    rewrite Hstep. split; [exact Hgone|]. split.
    + intros other Hne. rewrite includes_without, (bool_decide_eq_false_2 _ Hne).
      apply andb_true_r.
    + unfold handleAgentToggle. rewrite Hgone. reflexivity.
  - assert (Hstep : handleAgentToggle agentId prev = prev ++ [agentId])
      by (unfold handleAgentToggle; rewrite Hin; reflexivity).
    rewrite Hstep.
    split; [rewrite includes_app, Hin, Hself; reflexivity|]. split.
    + intros other Hne. rewrite includes_app. unfold includes at 2. cbn [existsb].
      rewrite (bool_decide_eq_false_2 (agentId = other)) by congruence.
      rewrite !orb_false_r. reflexivity.
    + unfold handleAgentToggle. rewrite includes_app, Hin, Hself. cbn [orb].
      rewrite List.filter_app, (filter_absent _ _ Hin). cbn [List.filter].
      rewrite (bool_decide_eq_true_2 _ eq_refl). cbn [negb]. apply app_nil_r.
Qed.

(** ** Queries *)

Section QueryFacts.
Context {R : Type}.

Lemma saveQueries_eq (newQueries : list (MultiAgentQuery.t R)) (w : World)
    (qs : list (MultiAgentQuery.t R)) (st : gmap jsstring (list (MultiAgentQuery.t R)))
    (fit : jsstring -> list (MultiAgentQuery.t R) -> bool) :
  saveQueries newQueries (mkQueryWorld w qs st fit) =
  match user w with
  | None => (Ok tt, mkQueryWorld w qs st fit)
  | Some u =>
      if fit (queries_key u) newQueries
      then (Ok tt, mkQueryWorld w newQueries (<[queries_key u := newQueries]> st) fit)
      else (Throw (DOMException "QuotaExceededError"), mkQueryWorld w qs st fit)
  end.
Proof.
  unfold saveQueries, bindQ, in_world, current_user. cbn [base queries queriesStorage queries_fit].
  destruct (user w) as [u|]; [|reflexivity].
  unfold localStorage_setQueries, setQueries. cbn [base queries queriesStorage queries_fit].
  destruct (fit (queries_key u) newQueries); reflexivity.
Qed.

Lemma with_status_eq (status : QueryStatus) (results : option R)
    (q : MultiAgentQuery.t R) (w : World)
    (qs : list (MultiAgentQuery.t R)) (st : gmap jsstring (list (MultiAgentQuery.t R)))
    (fit : jsstring -> list (MultiAgentQuery.t R) -> bool) :
  with_status status results q (mkQueryWorld w qs st fit) =
  (Ok (MultiAgentQuery.mk
         (MultiAgentQuery.id q) (MultiAgentQuery.query q)
         (MultiAgentQuery.selectedAgents q) status
         (default (MultiAgentQuery.results q) results)
         (MultiAgentQuery.createdAt q)
         (if is_completed status then Some (clock w) else MultiAgentQuery.completedAt q)),
   mkQueryWorld w qs st fit).
Proof. unfold with_status. destruct (is_completed status); reflexivity. Qed.

Lemma mapMQ_with_status (queryId : jsstring) (status : QueryStatus) (results : option R)
    (l : list (MultiAgentQuery.t R)) (w : World)
    (qs : list (MultiAgentQuery.t R)) (st : gmap jsstring (list (MultiAgentQuery.t R)))
    (fit : jsstring -> list (MultiAgentQuery.t R) -> bool) :
  mapMQ (fun query =>
           if bool_decide (MultiAgentQuery.id query = queryId)
           then with_status status results query
           else retQ query) l (mkQueryWorld w qs st fit) =
  (Ok (map (fun q =>
              if bool_decide (MultiAgentQuery.id q = queryId)
              then MultiAgentQuery.mk
                     (MultiAgentQuery.id q) (MultiAgentQuery.query q)
                     (MultiAgentQuery.selectedAgents q) status
                     (default (MultiAgentQuery.results q) results)
                     (MultiAgentQuery.createdAt q)
                     (if is_completed status then Some (clock w)
                      else MultiAgentQuery.completedAt q)
              else q) l),
   mkQueryWorld w qs st fit).
Proof.
  induction l as [|q l IH]; [reflexivity|].
  cbn [mapMQ map]. unfold bindQ at 1.
  destruct (bool_decide (MultiAgentQuery.id q = queryId)).
  - rewrite with_status_eq. unfold bindQ at 1. rewrite IH. reflexivity.
  - unfold retQ at 1. unfold bindQ at 1. rewrite IH. reflexivity.
Qed.

End QueryFacts.

Lemma createMultiAgentQuery_eq {R : Type} (no_results : R) (query : jsstring)
    (selectedAgentIds : list jsstring) (w : World)
    (qs : list (MultiAgentQuery.t R)) (st : gmap jsstring (list (MultiAgentQuery.t R)))
    (fit : jsstring -> list (MultiAgentQuery.t R) -> bool) :
  let newQuery :=
    MultiAgentQuery.mk
      (concat (map (fun b => [hex_digit (Byte.to_N b / 16); hex_digit (Byte.to_N b mod 16)])
                 (tape w 16)))
      query selectedAgentIds pending no_results (clock w) None in
  createMultiAgentQuery no_results query selectedAgentIds (mkQueryWorld w qs st fit) =
  match user w with
  | None => (Ok newQuery, mkQueryWorld (advance 16 w) qs st fit)
  | Some u =>
      if fit (queries_key u) (qs ++ [newQuery])
      then (Ok newQuery,
            mkQueryWorld (advance 16 w) (qs ++ [newQuery])
              (<[queries_key u := qs ++ [newQuery]]> st) fit)
      else (Throw (DOMException "QuotaExceededError"),
            mkQueryWorld (advance 16 w) qs st fit)
  end.
Proof.
  intros newQuery. unfold createMultiAgentQuery.
  unfold bindQ at 1. unfold current_queries at 1. cbn [queries].
  unfold bindQ at 1. unfold in_world at 1. cbn [base queries queriesStorage queries_fit].
  rewrite generateSecureId_eq.
  unfold bindQ at 1. unfold in_world at 1, Date_toISOString.
  cbn [base queries queriesStorage queries_fit].
  change (clock (advance 16 w)) with (clock w). fold newQuery.
  unfold bindQ at 1. rewrite saveQueries_eq.
  change (user (advance 16 w)) with (user w).
  destruct (user w) as [u|]; [|reflexivity].
  destruct (fit (queries_key u) (qs ++ [newQuery])); reflexivity.
Qed.

(** X15. A [createMultiAgentQuery] that returns gives a query with the text
    and the agents it was given, status [pending], no results, no
    [completedAt], the time of the call as [createdAt] and an id of 32
    hexadecimal digits. With a user signed in the query is appended to the
    list, in the state and in [localStorage]; with nobody signed in it is
    returned all the same and recorded nowhere. *)
Theorem createMultiAgentQuery_pending {R : Type} (no_results : R) (query : jsstring)
    (selectedAgentIds : list jsstring) (qw qw' : QueryWorld R) (q : MultiAgentQuery.t R) :
  createMultiAgentQuery no_results query selectedAgentIds qw = (Ok q, qw') ->
  MultiAgentQuery.query q = query /\
  MultiAgentQuery.selectedAgents q = selectedAgentIds /\
  MultiAgentQuery.status q = pending /\
  MultiAgentQuery.results q = no_results /\
  MultiAgentQuery.completedAt q = None /\
  MultiAgentQuery.createdAt q = clock (base qw) /\
  length (MultiAgentQuery.id q) = 32%nat /\
  Forall (fun c => is_lower_hex_digit c = true) (MultiAgentQuery.id q) /\
  (forall u, user (base qw) = Some u ->
     queries qw' = queries qw ++ [q] /\
     queriesStorage qw' !! queries_key u = Some (queries qw ++ [q])) /\
  (user (base qw) = None ->
     queries qw' = queries qw /\ queriesStorage qw' = queriesStorage qw).
Proof.
  destruct qw as [w qs st fit]. intros H.
  pose proof (createMultiAgentQuery_eq no_results query selectedAgentIds w qs st fit) as Heq.
  cbv zeta in Heq. rewrite H in Heq. clear H. cbn [base queries queriesStorage].
  match type of Heq with
  | context [Ok (MultiAgentQuery.mk ?a ?b ?c ?d ?e ?f ?g)] =>
      set (Q := MultiAgentQuery.mk a b c d e f g) in Heq
  end.
  assert (HQ : q = Q /\
               (forall u, user w = Some u ->
                  queries qw' = qs ++ [Q] /\
                  queriesStorage qw' !! queries_key u = Some (qs ++ [Q])) /\
               (user w = None -> queries qw' = qs /\ queriesStorage qw' = st)).
  { destruct (user w) as [u|].
    - destruct (fit (queries_key u) (qs ++ [Q])); [|discriminate Heq].
      match type of Heq with
      | _ = (_, ?W) => assert (Hw : qw' = W) by congruence
      end.
      split; [congruence|]. split; [|discriminate].
      intros u' Hu. assert (u' = u) as -> by congruence. rewrite Hw.
      split; [reflexivity|]. cbn [queriesStorage]. apply lookup_insert_eq.
    - match type of Heq with
      | _ = (_, ?W) => assert (Hw : qw' = W) by congruence
      end.
      split; [congruence|]. split; [discriminate|]. intros _. rewrite Hw. split; reflexivity. }
  destruct HQ as (-> & Hin & Hout).
  do 6 (split; [reflexivity|]).
  split; [unfold Q; cbn [MultiAgentQuery.id]; rewrite two_digits_length, tape_length; reflexivity|].
  split; [apply two_digits_hex|]. split; [exact Hin | exact Hout].
Qed.

(** X16. An [updateQueryStatus] that returns, with a user signed in, keeps
    the number and order of the queries and, of each, the id, the text, the
    agents and [createdAt]; a query with another id is unchanged; a query
    with the given id gets the status, gets the results when results are
    given and keeps its own otherwise, and gets the time of the call as
    [completedAt] when the status is [completed] and keeps its old
    [completedAt] otherwise (so a completed query marked failed still shows
    when it completed). *)
Theorem updateQueryStatus_frame {R : Type} (queryId : jsstring) (status : QueryStatus)
    (results : option R) (qw qw' : QueryWorld R) (u : User.t) :
  user (base qw) = Some u ->
  updateQueryStatus queryId status results qw = (Ok tt, qw') ->
  Forall2
    (fun q q' =>
       MultiAgentQuery.id q' = MultiAgentQuery.id q /\
       MultiAgentQuery.query q' = MultiAgentQuery.query q /\
       MultiAgentQuery.selectedAgents q' = MultiAgentQuery.selectedAgents q /\
       MultiAgentQuery.createdAt q' = MultiAgentQuery.createdAt q /\
       (MultiAgentQuery.id q <> queryId -> q' = q) /\
       (MultiAgentQuery.id q = queryId ->
          MultiAgentQuery.status q' = status /\
          MultiAgentQuery.results q' = default (MultiAgentQuery.results q) results /\
          MultiAgentQuery.completedAt q' =
            if is_completed status then Some (clock (base qw))
            else MultiAgentQuery.completedAt q))
    (queries qw) (queries qw') /\
  queriesStorage qw' !! queries_key u = Some (queries qw').
Proof.
  destruct qw as [w qs st fit]. cbn [base queries]. intros Hu H.
  unfold updateQueryStatus in H. unfold bindQ at 1 in H.
  unfold current_queries at 1 in H. cbn [queries] in H.
  unfold bindQ at 1 in H. rewrite mapMQ_with_status in H.
  rewrite saveQueries_eq, Hu in H.
  destruct (fit (queries_key u) _); [|discriminate H].
  match type of H with
  | (_, ?W) = _ => assert (Hw : qw' = W) by congruence
  end.
  clear H. subst qw'. cbn [queries queriesStorage].
  split; [|apply lookup_insert_eq].
  induction qs as [|q l IH]; cbn [map]; constructor; [|exact IH].
  destruct (bool_decide_reflect (MultiAgentQuery.id q = queryId)) as [Hq|Hq].
  - cbn [MultiAgentQuery.id MultiAgentQuery.query MultiAgentQuery.selectedAgents
         MultiAgentQuery.createdAt MultiAgentQuery.status MultiAgentQuery.results
         MultiAgentQuery.completedAt].
    do 4 (split; [reflexivity|]). split; [intros Hne; contradiction|].
    intros _. repeat split.
  - do 4 (split; [reflexivity|]). split; [reflexivity|].
    intros Heq. contradiction.
Qed.

(** X17. The key under which [saveApiKeys] stores the keys of a user is
    never the key under which [saveQueries] stores the queries of a user,
    whatever the two user ids; and two users with different ids have
    different keys for their queries. *)
Theorem storage_keys_disjoint (u u' : User.t) :
  storage_key u <> queries_key u' /\
  (queries_key u = queries_key u' -> User.id u = User.id u').
Proof.
  split.
  - unfold storage_key, queries_key. intros H. discriminate H.
  - unfold queries_key. rewrite !app_assoc. apply app_inv_head.
Qed.

(** ** The coding of text *)

Lemma utf8_lead_1 (b : N) : b <= 0x7F -> utf8_lead b = ([b], None).
Proof. intros H. unfold utf8_lead. destruct (N.leb_spec b 0x7F); [reflexivity | lia]. Qed.

Lemma utf8_lead_2 (b : N) :
  0xC2 <= b <= 0xDF -> utf8_lead b = ([], Some (b mod 32, 1%nat, 0x80, 0xBF)).
Proof.
  intros H. unfold utf8_lead.
  destruct (N.leb_spec b 0x7F); [lia|].
  destruct (N.leb_spec 0xC2 b); [|lia]. destruct (N.leb_spec b 0xDF); [|lia]. reflexivity.
Qed.

Lemma utf8_lead_3 (b : N) :
  0xE0 <= b <= 0xEF ->
  utf8_lead b = ([], Some (b mod 16, 2%nat, (if b =? 0xE0 then 0xA0 else 0x80),
                           (if b =? 0xED then 0x9F else 0xBF))).
Proof.
  intros H. unfold utf8_lead.
  destruct (N.leb_spec b 0x7F); [lia|].
  destruct (N.leb_spec 0xC2 b); [|lia]. destruct (N.leb_spec b 0xDF); [lia|].
  destruct (N.leb_spec 0xE0 b); [|lia]. destruct (N.leb_spec b 0xEF); [|lia]. reflexivity.
Qed.

Lemma utf8_lead_4 (b : N) :
  0xF0 <= b <= 0xF4 ->
  utf8_lead b = ([], Some (b mod 8, 3%nat, (if b =? 0xF0 then 0x90 else 0x80),
                           (if b =? 0xF4 then 0x8F else 0xBF))).
Proof.
  intros H. unfold utf8_lead.
  destruct (N.leb_spec b 0x7F); [lia|].
  destruct (N.leb_spec 0xC2 b); [|lia]. destruct (N.leb_spec b 0xDF); [lia|].
  destruct (N.leb_spec 0xE0 b); [|lia]. destruct (N.leb_spec b 0xEF); [lia|].
  destruct (N.leb_spec 0xF0 b); [|lia]. destruct (N.leb_spec b 0xF4); [|lia]. reflexivity.
Qed.

Lemma utf8_continue_last (cp lo hi b : N) (r : list N) :
  lo <= b <= hi ->
  utf8_decode (Some (cp, 1%nat, lo, hi)) (b :: r) = (cp * 64 + b mod 64) :: utf8_decode None r.
Proof.
  intros H. cbn [utf8_decode].
  destruct (N.leb_spec lo b); [|lia]. destruct (N.leb_spec b hi); [|lia]. reflexivity.
Qed.

Lemma utf8_continue_more (cp lo hi b : N) (n : nat) (r : list N) :
  lo <= b <= hi ->
  utf8_decode (Some (cp, S (S n), lo, hi)) (b :: r) =
  utf8_decode (Some (cp * 64 + b mod 64, S n, 0x80, 0xBF)) r.
Proof.
  intros H. cbn [utf8_decode].
  destruct (N.leb_spec lo b); [|lia]. destruct (N.leb_spec b hi); [|lia]. reflexivity.
Qed.

Lemma utf8_start (b : N) (r : list N) :
  utf8_decode None (b :: r) = fst (utf8_lead b) ++ utf8_decode (snd (utf8_lead b)) r.
Proof. reflexivity. Qed.

Lemma utf8_decode_one (cp : N) (rest : list N) :
  is_scalar cp ->
  utf8_decode None (utf8_of_code_point cp ++ rest) = cp :: utf8_decode None rest.
Proof.
  intros [Hlt Hns]. unfold utf8_of_code_point.
  destruct (N.ltb_spec cp 0x80).
  - cbn [app]. rewrite utf8_start, utf8_lead_1 by lia. reflexivity.
  - destruct (N.ltb_spec cp 0x800).
    + cbn [app]. rewrite utf8_start, utf8_lead_2 by divmod. cbn [fst snd app].
      rewrite utf8_continue_last by divmod. f_equal. divmod.
    + destruct (N.ltb_spec cp 0x10000).
      * cbn [app]. rewrite utf8_start, utf8_lead_3 by divmod. cbn [fst snd app].
        rewrite utf8_continue_more
          by (destruct (N.eqb_spec (0xE0 + cp / 4096) 0xE0);
              destruct (N.eqb_spec (0xE0 + cp / 4096) 0xED); divmod).
        rewrite utf8_continue_last by divmod. f_equal. divmod.
      * cbn [app]. rewrite utf8_start, utf8_lead_4 by divmod. cbn [fst snd app].
        rewrite utf8_continue_more
          by (destruct (N.eqb_spec (0xF0 + cp / 262144) 0xF0);
              destruct (N.eqb_spec (0xF0 + cp / 262144) 0xF4); divmod).
        rewrite utf8_continue_more by divmod.
        rewrite utf8_continue_last by divmod. f_equal. divmod.
Qed.

Lemma list_ind2 {A} (Q : list A -> Prop) :
  Q [] -> (forall x, Q [x]) -> (forall x y r, Q r -> Q (y :: r) -> Q (x :: y :: r)) ->
  forall l, Q l.
Proof.
  intros H0 H1 H2 l.
  cut (Q l /\ forall x, Q (x :: l)); [intros [H _]; exact H|].
  induction l as [|a l [IH0 IH1]]; split; auto.
Qed.

Lemma surrogate_cases (u : N) :
  (is_high_surrogate u = true /\ 0xD800 <= u <= 0xDBFF) \/
  (is_high_surrogate u = false /\ is_low_surrogate u = true /\ 0xDC00 <= u <= 0xDFFF) \/
  (is_high_surrogate u = false /\ is_low_surrogate u = false /\ (u < 0xD800 \/ 0xDFFF < u)).
Proof.
  unfold is_high_surrogate, is_low_surrogate.
  destruct (N.leb_spec 0xD800 u); destruct (N.leb_spec u 0xDBFF);
    destruct (N.leb_spec 0xDC00 u); destruct (N.leb_spec u 0xDFFF); cbn [andb]; lia.
Qed.

Lemma utf8_bytes_bounded (cp : N) :
  is_scalar cp -> Forall (fun b => b <= 255) (utf8_of_code_point cp).
Proof.
  intros [Hlt _]. unfold utf8_of_code_point.
  destruct (N.ltb_spec cp 0x80); [|destruct (N.ltb_spec cp 0x800);
    [|destruct (N.ltb_spec cp 0x10000)]];
    repeat (apply List.Forall_cons; [divmod|]); apply List.Forall_nil.
Qed.

Lemma utf8_decode_all (cps rest : list N) :
  Forall is_scalar cps ->
  utf8_decode None (flat_map utf8_of_code_point cps ++ rest) = cps ++ utf8_decode None rest.
Proof.
  induction 1 as [|cp cps Hcp _ IH]; [reflexivity|].
  cbn [flat_map]. rewrite <- app_assoc, utf8_decode_one by exact Hcp.
  rewrite IH. reflexivity.
Qed.

Lemma spread_Uint8Array_from (l : list N) :
  Forall (fun b => b <= 255) l -> spread (Uint8Array_from l) = l.
Proof.
  intros Hall. unfold spread, Uint8Array_from. rewrite map_map.
  rewrite <- (map_id l) at 2. apply map_ext_in. intros b Hb.
  rewrite List.Forall_forall in Hall. specialize (Hall b Hb).
  unfold ToUint8. rewrite N.mod_small by lia.
  destruct (Byte.of_N b) as [x|] eqn:Hx.
  - apply Byte.to_of_N, Hx.
  - apply Byte.of_N_None_iff in Hx. lia.
Qed.

Ltac split_positive :=
  repeat match goal with
  | |- context [match ?p with xI _ => _ | xO _ => _ | xH => _ end] => destruct p
  end.

Lemma strip_bom_first (a : N) (r : list N) : a <> 0xEF -> strip_bom (a :: r) = a :: r.
Proof.
  intros Ha. unfold strip_bom. destruct a as [|p]; [reflexivity|].
  split_positive; try reflexivity. exfalso. apply Ha. reflexivity.
Qed.

Lemma strip_bom_second (b : N) (r : list N) :
  b <> 0xBB -> strip_bom (0xEF :: b :: r) = 0xEF :: b :: r.
Proof.
  intros Hb. unfold strip_bom. destruct b as [|p]; [reflexivity|].
  split_positive; try reflexivity. exfalso. apply Hb. reflexivity.
Qed.

Lemma strip_bom_third (c : N) (r : list N) :
  c <> 0xBF -> strip_bom (0xEF :: 0xBB :: c :: r) = 0xEF :: 0xBB :: c :: r.
Proof.
  intros Hc. unfold strip_bom. destruct c as [|p]; [reflexivity|].
  split_positive; try reflexivity. exfalso. apply Hc. reflexivity.
Qed.

Lemma strip_bom_utf8 (cp : N) (rest : list N) :
  is_scalar cp -> cp <> 0xFEFF ->
  strip_bom (utf8_of_code_point cp ++ rest) = utf8_of_code_point cp ++ rest.
Proof.
  intros [Hlt Hns] Hne. unfold utf8_of_code_point.
  destruct (N.ltb_spec cp 0x80); [|destruct (N.ltb_spec cp 0x800);
    [|destruct (N.ltb_spec cp 0x10000)]]; cbn [app].
  - apply strip_bom_first. lia.
  - apply strip_bom_first. divmod.
  - destruct (N.eq_dec (0xE0 + cp / 4096) 0xEF) as [Ha|Ha]; [|apply strip_bom_first, Ha].
    rewrite Ha.
    destruct (N.eq_dec (0x80 + (cp / 64) mod 64) 0xBB) as [Hb|Hb];
      [|apply strip_bom_second, Hb].
    rewrite Hb. apply strip_bom_third. divmod.
  - apply strip_bom_first. divmod.
Qed.

Lemma flat_map_bounded (cps : list N) :
  Forall is_scalar cps -> Forall (fun b => b <= 255) (flat_map utf8_of_code_point cps).
Proof.
  induction 1 as [|cp cps Hcp _ IH]; [constructor|].
  cbn [flat_map]. apply Forall_app. split; [apply utf8_bytes_bounded, Hcp | exact IH].
Qed.

Lemma decode_encode_code_points (cps : list N) :
  Forall is_scalar cps ->
  hd_error cps <> Some 0xFEFF ->
  utf8_decode None (strip_bom (spread (Uint8Array_from (flat_map utf8_of_code_point cps))))
  = cps.
Proof.
  intros Hsc Hhd. rewrite spread_Uint8Array_from by apply flat_map_bounded, Hsc.
  assert (Hstrip : strip_bom (flat_map utf8_of_code_point cps) =
                   flat_map utf8_of_code_point cps).
  { destruct Hsc as [|cp cps Hcp Hcps]; [reflexivity|].
    cbn [flat_map]. apply strip_bom_utf8; [exact Hcp|].
    intros ->. apply Hhd. reflexivity. }
  rewrite Hstrip. rewrite <- (app_nil_r (flat_map utf8_of_code_point cps)).
  rewrite utf8_decode_all by exact Hsc. apply app_nil_r.
Qed.

(** The code points of a string one step at a time. *)
Lemma code_points_one (x : N) :
  code_points [x] = [if is_high_surrogate x || is_low_surrogate x then 0xFFFD else x].
Proof.
  cbn [code_points]. destruct (is_high_surrogate x); [reflexivity|].
  destruct (is_low_surrogate x); reflexivity.
Qed.

Lemma code_points_two (x y : N) (r : jsstring) :
  code_points (x :: y :: r) =
  if is_high_surrogate x then
    if is_low_surrogate y
    then (0x10000 + (x - 0xD800) * 1024 + (y - 0xDC00)) :: code_points r
    else 0xFFFD :: code_points (y :: r)
  else if is_low_surrogate x then 0xFFFD :: code_points (y :: r)
  else x :: code_points (y :: r).
Proof. reflexivity. Qed.

Lemma toWellFormed_one (x : N) :
  toWellFormed [x] = [if is_high_surrogate x || is_low_surrogate x then 0xFFFD else x].
Proof.
  cbn [toWellFormed]. destruct (is_high_surrogate x); [reflexivity|].
  destruct (is_low_surrogate x); reflexivity.
Qed.

Lemma toWellFormed_two (x y : N) (r : jsstring) :
  toWellFormed (x :: y :: r) =
  if is_high_surrogate x then
    if is_low_surrogate y
    then x :: y :: toWellFormed r
    else 0xFFFD :: toWellFormed (y :: r)
  else if is_low_surrogate x then 0xFFFD :: toWellFormed (y :: r)
  else x :: toWellFormed (y :: r).
Proof. reflexivity. Qed.

Lemma well_formed_one (x : N) :
  well_formed [x] =
  negb (is_high_surrogate x || is_low_surrogate x) && (x <? 0x10000).
Proof.
  cbn [well_formed]. destruct (is_high_surrogate x); [reflexivity|].
  destruct (is_low_surrogate x); [reflexivity|]. cbn [orb negb andb].
  apply andb_true_r.
Qed.

Lemma well_formed_two (x y : N) (r : jsstring) :
  well_formed (x :: y :: r) =
  if is_high_surrogate x then is_low_surrogate y && well_formed r
  else if is_low_surrogate x then false
  else (x <? 0x10000) && well_formed (y :: r).
Proof. reflexivity. Qed.

Lemma utf16_of_unit (x : N) : x < 0x10000 -> utf16_of_code_point x = [x].
Proof.
  intros Hx. unfold utf16_of_code_point.
  destruct (N.ltb_spec x 0x10000); [reflexivity | lia].
Qed.

Lemma utf16_of_pair (x y : N) :
  0xD800 <= x <= 0xDBFF -> 0xDC00 <= y <= 0xDFFF ->
  utf16_of_code_point (0x10000 + (x - 0xD800) * 1024 + (y - 0xDC00)) = [x; y].
Proof.
  intros Hx Hy. unfold utf16_of_code_point.
  destruct (N.ltb_spec (0x10000 + (x - 0xD800) * 1024 + (y - 0xDC00)) 0x10000); [lia|].
  f_equal; [|f_equal]; divmod.
Qed.

Lemma is_low_surrogate_true (y : N) :
  is_low_surrogate y = true -> 0xDC00 <= y <= 0xDFFF.
Proof.
  unfold is_low_surrogate. intros H. apply andb_true_iff in H.
  destruct H as [H1 H2]. apply N.leb_le in H1. apply N.leb_le in H2. lia.
Qed.

(** The scalar values [TextEncoder] reads off any string are those of the
    string made well formed. *)
Lemma code_points_toWellFormed (s : jsstring) :
  Forall (fun u => u < 0x10000) s ->
  Forall is_scalar (code_points s) /\
  flat_map utf16_of_code_point (code_points s) = toWellFormed s.
Proof.
  induction s as [| x | x y r IHr IHyr] using list_ind2; intros Hb.
  - split; [constructor | reflexivity].
  - apply List.Forall_cons_iff in Hb. destruct Hb as [Hx _].
    rewrite code_points_one, toWellFormed_one.
    destruct (surrogate_cases x) as [(-> & Hxr) | [(-> & -> & Hxr) | (-> & -> & Hxr)]];
      cbn [orb flat_map app].
    + split; [constructor; [unfold is_scalar; lia | constructor] | reflexivity].
    + split; [constructor; [unfold is_scalar; lia | constructor] | reflexivity].
    + split; [constructor; [unfold is_scalar; lia | constructor]|].
      rewrite utf16_of_unit by exact Hx. reflexivity.
  - apply List.Forall_cons_iff in Hb. destruct Hb as [Hx Hyr].
    pose proof Hyr as Hyr'. apply List.Forall_cons_iff in Hyr'. destruct Hyr' as [Hy Hr].
    destruct (IHr Hr) as [Hsr Hfr]. destruct (IHyr Hyr) as [Hsyr Hfyr].
    rewrite code_points_two, toWellFormed_two.
    destruct (surrogate_cases x) as [(-> & Hxs) | [(-> & -> & Hxr) | (-> & -> & Hxr)]].
    + destruct (is_low_surrogate y) eqn:Hl.
      * apply is_low_surrogate_true in Hl.
        split; [constructor; [unfold is_scalar; lia | exact Hsr]|].
        cbn [flat_map]. rewrite utf16_of_pair by assumption. rewrite Hfr. reflexivity.
      * split; [constructor; [unfold is_scalar; lia | exact Hsyr]|].
        cbn [flat_map]. rewrite Hfyr. reflexivity.
    + split; [constructor; [unfold is_scalar; lia | exact Hsyr]|].
      cbn [flat_map]. rewrite Hfyr. reflexivity.
    + split; [constructor; [unfold is_scalar; lia | exact Hsyr]|].
      cbn [flat_map]. rewrite Hfyr, utf16_of_unit by exact Hx. reflexivity.
Qed.

Lemma toWellFormed_length (s : jsstring) : length (toWellFormed s) = length s.
Proof.
  induction s as [| x | x y r IHr IHyr] using list_ind2.
  - reflexivity.
  - rewrite toWellFormed_one. reflexivity.
  - rewrite toWellFormed_two.
    destruct (is_high_surrogate x); [destruct (is_low_surrogate y)|
      destruct (is_low_surrogate x)]; cbn [length]; rewrite ?IHr, ?IHyr; reflexivity.
Qed.

(** Making a string well formed changes it exactly when it is not. *)
Lemma toWellFormed_fixed (s : jsstring) :
  Forall (fun u => u < 0x10000) s ->
  (toWellFormed s = s <-> well_formed s = true).
Proof.
  induction s as [| x | x y r IHr IHyr] using list_ind2; intros Hb.
  - split; reflexivity.
  - apply List.Forall_cons_iff in Hb. destruct Hb as [Hx _].
    rewrite toWellFormed_one, well_formed_one.
    destruct (surrogate_cases x) as [(-> & Hxr) | [(-> & -> & Hxr) | (-> & -> & Hxr)]];
      cbn [orb negb andb].
    + split; [intros H; injection H as H; lia | discriminate].
    + split; [intros H; injection H as H; lia | discriminate].
    + split; [intros _; apply N.ltb_lt, Hx | reflexivity].
  - apply List.Forall_cons_iff in Hb. destruct Hb as [Hx Hyr].
    pose proof Hyr as Hyr'. apply List.Forall_cons_iff in Hyr'. destruct Hyr' as [Hy Hr].
    specialize (IHr Hr). specialize (IHyr Hyr).
    rewrite toWellFormed_two, well_formed_two.
    destruct (surrogate_cases x) as [(-> & Hxs) | [(-> & -> & Hxr) | (-> & -> & Hxr)]].
    + destruct (is_low_surrogate y) eqn:Hl; cbn [andb].
      * rewrite <- IHr. split; [intros H; injection H as H; exact H | intros ->; reflexivity].
      * split; [intros H; injection H as H _; lia | discriminate].
    + split; [intros H; injection H as H _; lia | discriminate].
    + replace (x <? 0x10000) with true by (symmetry; apply N.ltb_lt, Hx). cbn [andb].
      rewrite <- IHyr. split; [intros H; injection H as H; exact H | intros ->; reflexivity].
Qed.

(** What the decoder gives back of the encoding of scalar values: all of
    them, but for a U+FEFF at the start. *)
Lemma decode_encode_scalars (cps : list N) :
  Forall is_scalar cps ->
  flat_map utf16_of_code_point
    (utf8_decode None
       (strip_bom (spread (Uint8Array_from (flat_map utf8_of_code_point cps)))))
  = without_bom (flat_map utf16_of_code_point cps).
Proof.
  intros Hsc. destruct Hsc as [|cp cps Hcp Hcps]; [reflexivity|].
  destruct (N.eq_dec cp 0xFEFF) as [->|Hne].
  - rewrite spread_Uint8Array_from.
    2:{ apply (flat_map_bounded (0xFEFF :: cps)). constructor; assumption. }
    change (flat_map utf8_of_code_point (0xFEFF :: cps)) with
      (0xEF :: 0xBB :: 0xBF :: flat_map utf8_of_code_point cps).
    change (strip_bom (0xEF :: 0xBB :: 0xBF :: ?r)) with r.
    rewrite <- (app_nil_r (flat_map utf8_of_code_point cps)).
    rewrite utf8_decode_all by exact Hcps. rewrite app_nil_r. reflexivity.
  - rewrite decode_encode_code_points.
    2:{ constructor; assumption. }
    2:{ cbn [hd_error]. congruence. }
    cbn [flat_map]. destruct Hcp as [Hlt Hns]. unfold utf16_of_code_point.
    destruct (N.ltb_spec cp 0x10000); cbn [app without_bom].
    + destruct (N.eqb_spec cp 0xFEFF); [contradiction | reflexivity].
    + destruct (N.eqb_spec (0xD800 + (cp - 0x10000) / 1024) 0xFEFF) as [He|]; [|reflexivity].
      exfalso. revert He. divmod.
Qed.

Lemma without_bom_fixed (s : jsstring) :
  without_bom s = s <-> hd_error s <> Some 0xFEFF.
Proof.
  destruct s as [|u r]; [split; [discriminate | reflexivity]|].
  cbn [without_bom hd_error]. destruct (N.eqb_spec u 0xFEFF) as [->|Hne].
  - split; [|intros H; exfalso; apply H; reflexivity].
    intros H. apply (f_equal (@length N)) in H. cbn [length] in H. lia.
  - split; [congruence | reflexivity].
Qed.

Lemma without_bom_length (s : jsstring) :
  without_bom s = s \/ S (length (without_bom s)) = length s.
Proof.
  destruct s as [|u r]; [left; reflexivity|].
  cbn [without_bom]. destruct (u =? 0xFEFF); [right | left]; reflexivity.
Qed.

(** X18. What the text coding of [encryptData] and [decryptData] gives back:
    for every string, [new TextDecoder().decode(new TextEncoder().encode(s))]
    is [s] with every surrogate that is not part of a pair replaced by
    U+FFFD, and without the U+FEFF it starts with if it starts with one. So
    the string comes back unchanged exactly when its surrogates all stand in
    pairs and it does not start with U+FEFF. *)
Theorem text_roundtrip :
  (forall s : jsstring,
     Forall (fun u => u < 0x10000) s ->
     TextDecoder_decode (TextEncoder_encode s) = without_bom (toWellFormed s)) /\
  (forall s : jsstring,
     Forall (fun u => u < 0x10000) s ->
     (TextDecoder_decode (TextEncoder_encode s) = s <->
      well_formed s = true /\ hd_error s <> Some 0xFEFF)).
Proof.
  assert (Hgen : forall s : jsstring,
             Forall (fun u => u < 0x10000) s ->
             TextDecoder_decode (TextEncoder_encode s) = without_bom (toWellFormed s)).
  { intros s Hb. destruct (code_points_toWellFormed s Hb) as [Hsc Hfm].
    unfold TextDecoder_decode, TextEncoder_encode.
    rewrite decode_encode_scalars by exact Hsc. rewrite Hfm. reflexivity. }
  split; [exact Hgen|].
  intros s Hb. rewrite (Hgen s Hb). split.
  - intros H.
    assert (Hwb : without_bom (toWellFormed s) = toWellFormed s).
    { destruct (without_bom_length (toWellFormed s)) as [Hw|Hw]; [exact Hw|].
      rewrite H, toWellFormed_length in Hw. lia. }
    rewrite Hwb in H. split; [apply toWellFormed_fixed; assumption|].
    apply without_bom_fixed. rewrite <- H at 1 2. exact Hwb.
  - intros [Hwf Hhd]. apply toWellFormed_fixed in Hwf; [|exact Hb].
    rewrite Hwf. apply without_bom_fixed, Hhd.
Qed.

Example text_roundtrip_samples :
  TextDecoder_decode (TextEncoder_encode [0x41; 0xD800; 0x42]) = [0x41; 0xFFFD; 0x42] /\
  TextDecoder_decode (TextEncoder_encode [0xFEFF; 0x41]) = [0x41] /\
  TextDecoder_decode (TextEncoder_encode [0xD83D; 0xDE00]) = [0xD83D; 0xDE00] /\
  TextDecoder_decode (TextEncoder_encode [0xDE00; 0xD83D]) = [0xFFFD; 0xFFFD].
Proof. repeat split. Qed.

(** X19. After a [toggleAPIKeyStatus] that returns, with a user signed in,
    [getActiveAPIKeys] gives, in their order, the keys with that id that
    were inactive (now active) and the keys with another id that were
    active. *)
Theorem toggleAPIKeyStatus_active (keyId : jsstring) (w w' : World) (u : User.t) :
  user w = Some u ->
  toggleAPIKeyStatus keyId w = (Ok tt, w') ->
  fst (getActiveAPIKeys w') =
  Ok (map (fun key => if id_is keyId key then toggled key else key)
        (List.filter (fun key => xorb (APIKey.isActive key) (id_is keyId key))
           (apiKeys w))).
Proof.
  intros Hu H. rewrite toggleAPIKeyStatus_eq, saveApiKeys_eq, Hu in H.
  destruct (setItem_fits w (storage_key u) _); [|discriminate H].
  match type of H with
  | (_, ?W) = _ => assert (Hw : w' = W) by congruence
  end.
  clear H. subst w'.
  unfold getActiveAPIKeys, bind, current_apiKeys, ret. cbn [fst].
  change (apiKeys (set_apiKeys ?l _)) with l. f_equal.
  induction (apiKeys w) as [|k l IH]; [reflexivity|].
  cbn [map List.filter]. rewrite IH.
  destruct (id_is keyId k) eqn:Hk.
  - cbn [toggled APIKey.isActive]. destruct (APIKey.isActive k); cbn [negb xorb].
    + reflexivity.
    + cbn [map]. rewrite Hk. reflexivity.
  - rewrite xorb_false_r. destruct (APIKey.isActive k); [|reflexivity].
    cbn [map]. rewrite Hk. reflexivity.
Qed.

(** ** Instances of the further properties that have a hypothesis *)


Lemma saveApiKeys_isolated_witness :
  exists w',
    user Sample.world2 = Some Sample.u1 /\
    saveApiKeys [Sample.key_b] Sample.world2 = (Ok tt, w') /\
    apiKeys w' = [Sample.key_b] /\
    localStorage w' !! storage_key Sample.u1 = Some [Sample.key_b] /\
    (User.id Sample.u2 <> User.id Sample.u1 ->
     localStorage w' !! storage_key Sample.u2 =
     localStorage Sample.world2 !! storage_key Sample.u2).
Proof.
  eexists. split; [running|]. split; [running|].
  eapply (saveApiKeys_isolated [Sample.key_b] Sample.world2 _ Sample.u1 Sample.u2);
    running.
Defined.

Lemma deleteAPIKey_removes_witness :
  exists w',
    user Sample.world2 = Some Sample.u1 /\
    deleteAPIKey (js "a") Sample.world2 = (Ok tt, w') /\
    fst (getAPIKeyById (js "a") w') = Ok None /\
    apiKeys w' = [Sample.key_b; Sample.key_ok].
Proof.
  edestruct (deleteAPIKey_removes (js "a") Sample.world2) as (Hgone & _ & Hl & _);
    [running | running |].
  eexists. split; [running|]. split; [running|].
  split; [exact Hgone | exact Hl].
Defined.

Lemma mutators_throw_when_storage_full_witness :
  user Sample.world_full = Some Sample.u1 /\
  (forall keys, setItem_fits Sample.world_full (storage_key Sample.u1) keys = false) /\
  deleteAPIKey (js "a") Sample.world_full =
    (Throw (DOMException "QuotaExceededError"), Sample.world_full).
Proof.
  split; [running|]. split; [intros keys; running|].
  eapply (mutators_throw_when_storage_full (js "a")
            (APIKeyUpdates.mk None None None None None None None None None)
            Sample.world_full Sample.u1); [running | intros keys; running].
Defined.

Lemma signed_out_nothing_saved_witness :
  user Sample.world_out = None /\
  deleteAPIKey (js "a") Sample.world_out =
    (Ok tt, add_toast deleted_toast Sample.world_out) /\
  exists key w',
    addAPIKey Ideal.prims Ideal.form0 (js "hunter2") Sample.world_out =
      (Ok (Added key), w') /\
    apiKeys w' = apiKeys Sample.world_out /\
    localStorage w' = localStorage Sample.world_out.
Proof.
  split; [running|].
  destruct (signed_out_nothing_saved Ideal.prims (js "a")
              (APIKeyUpdates.mk None None None None None None None None None)
              Ideal.form0 (js "hunter2") Sample.world_out eq_refl)
    as (_ & Hdel & _ & r & w' & Hadd & Hkeys & Hls & Hr).
  split; [exact Hdel|].
  destruct Hr as [[key ->] _].
  exists key, w'. split; [exact Hadd|]. split; [exact Hkeys | exact Hls].
Defined.

Lemma toggleAPIKeyStatus_twice_witness :
  exists w1 w2,
    user Sample.world2 = Some Sample.u1 /\
    toggleAPIKeyStatus (js "b") Sample.world2 = (Ok tt, w1) /\
    toggleAPIKeyStatus (js "b") w1 = (Ok tt, w2) /\
    apiKeys w2 = apiKeys Sample.world2.
Proof.
  eexists. eexists. split; [running|]. split; [running|]. split; [running|].
  eapply (toggleAPIKeyStatus_twice (js "b") Sample.world2 _ _ Sample.u1); running.
Defined.

Lemma toggleAPIKeyStatus_active_witness :
  exists w',
    user Sample.world2 = Some Sample.u1 /\
    toggleAPIKeyStatus (js "b") Sample.world2 = (Ok tt, w') /\
    fst (getActiveAPIKeys w') = Ok [Sample.key_a; toggled Sample.key_b; Sample.key_ok].
Proof.
  eexists. split; [running|]. split; [running|].
  eapply (toggleAPIKeyStatus_active (js "b") Sample.world2 _ Sample.u1); running.
Defined.

Lemma updateAPIKey_frame_witness :
  exists w',
    updateAPIKey (js "a")
      (APIKeyUpdates.mk None (Some (js "renamed")) (Some google) None None None None None
         (Some (Some (Metadata.mk (Some (js "gemini-pro")) None None))))
      Sample.world2 = (Ok tt, w') /\
    map APIKey.encryptedKey (apiKeys w') = map APIKey.encryptedKey (apiKeys Sample.world2) /\
    map APIKey.id (apiKeys w') = map APIKey.id (apiKeys Sample.world2).
Proof.
  edestruct (updateAPIKey_frame (js "a")
               (APIKeyUpdates.mk None (Some (js "renamed")) (Some google) None None None
                  None None (Some (Some (Metadata.mk (Some (js "gemini-pro")) None None))))
               Sample.world2) as (_ & Henc & Hid); [running|].
  eexists. split; [running|].
  split; [apply Henc | apply Hid]; running.
Defined.

Lemma getAPIKeyById_after_add_witness :
  exists key w',
    user Ideal.world1 = Some Sample.u1 /\
    addAPIKey Ideal.prims Ideal.form0 (js "hunter2") Ideal.world1 = (Ok (Added key), w') /\
    fst (getAPIKeyById (APIKey.id key) w') = Ok (Some key).
Proof.
  eexists. eexists. split; [running|]. split; [running|].
  eapply (getAPIKeyById_after_add Ideal.prims Ideal.form0 (js "hunter2") Ideal.world1 _ _
            Sample.u1); running.
Defined.

Lemma decryptAPIKey_success_witness :
  exists w',
    user Sample.world2 = Some Sample.u1 /\
    decryptAPIKey Ideal.prims (js "ok") (js "hunter2") Sample.world2 =
      (Ok (Some (js "sk-live-42")), w') /\
    apiKeys w' =
      [Sample.key_a; Sample.key_b;
       APIKey.mk (js "ok") (js "third") custom Sample.sealed true
         (js "2025-01-03T00:00:00.000Z") (Some (clock Sample.world2))
         (Number_of_Z 1) None] /\
    localStorage w' !! storage_key Sample.u1 = Some (apiKeys w') /\
    toasts w' = toasts Sample.world2.
Proof.
  edestruct (decryptAPIKey_success Ideal.prims (js "ok") (js "hunter2") (js "sk-live-42")
               Sample.world2) as (_ & _ & _ & Hls & Ht); [running | running |].
  eexists. split; [running|]. split; [running|].
  split; [reflexivity|]. split; [exact Hls | exact Ht].
Defined.

Lemma added_key_not_decrypted_witness :
  exists key w' w'',
    user Ideal.world1 = Some Sample.u1 /\
    addAPIKey Ideal.prims Ideal.form0 (js "hunter2") Ideal.world1 = (Ok (Added key), w') /\
    find (id_is (APIKey.id key)) (apiKeys Ideal.world1) = None /\
    decryptAPIKey Ideal.prims (APIKey.id key) (js "hunter2") w' = (Ok None, w'').
Proof.
  edestruct (added_key_not_decrypted Ideal.prims Ideal.form0 (js "hunter2") Ideal.world1)
    as (w'' & Hd & _); [running | running | running | running |].
  eexists. eexists. exists w''.
  split; [running|]. split; [running|]. split; [running | exact Hd].
Defined.

Lemma decryptData_rejects_malformed_witness :
  (In 33 (EncryptedData.salt (EncryptedData.mk (js "AAAA") (js "AAAAAAAAAAAAAAAA") (js "!AAA")))
   \/ In 33 (EncryptedData.iv (EncryptedData.mk (js "AAAA") (js "AAAAAAAAAAAAAAAA") (js "!AAA")))
   \/ In 33 (EncryptedData.encrypted
               (EncryptedData.mk (js "AAAA") (js "AAAAAAAAAAAAAAAA") (js "!AAA")))) /\
  dec6 33 = None /\ is_ascii_whitespace 33 = false /\ 33 <> pad_char /\
  decryptData Ideal.prims
    (EncryptedData.mk (js "AAAA") (js "AAAAAAAAAAAAAAAA") (js "!AAA"))
    (js "hunter2") Ideal.world0 = (Throw decrypt_error, Ideal.world0).
Proof.
  split; [left; left; reflexivity|]. split; [running|]. split; [running|].
  split; [discriminate|].
  apply (decryptData_rejects_malformed Ideal.prims
           (EncryptedData.mk (js "AAAA") (js "AAAAAAAAAAAAAAAA") (js "!AAA"))
           (js "hunter2") Ideal.world0 33).
  - left. left. running.
  - running.
  - running.
  - discriminate.
Defined.

Lemma encryptData_fields_text_witness :
  exists E w1,
    encryptData Ideal.prims (js "sk-live-42") (js "hunter2") Ideal.world0 = (Ok E, w1) /\
    length (EncryptedData.iv E) = 16%nat /\
    length (EncryptedData.salt E) = 24%nat /\
    Forall (fun c => dec6 c <> None \/ c = pad_char)
      (EncryptedData.encrypted E ++ EncryptedData.iv E ++ EncryptedData.salt E).
Proof.
  edestruct (encryptData_fields_text Ideal.prims (js "sk-live-42") (js "hunter2")
               Ideal.world0) as (Hiv & Hsalt & _ & Hall); [running|].
  eexists. eexists. split; [running|].
  split; [exact Hiv|]. split; [exact Hsalt | exact Hall].
Defined.

Lemma createMultiAgentQuery_pending_witness :
  exists q qw',
    createMultiAgentQuery tt (js "market size of tea") [js "a"; js "b"] Sample.qworld =
      (Ok q, qw') /\
    MultiAgentQuery.status q = pending /\
    MultiAgentQuery.selectedAgents q = [js "a"; js "b"] /\
    queries qw' = [q].
Proof.
  edestruct (createMultiAgentQuery_pending tt (js "market size of tea") [js "a"; js "b"]
               Sample.qworld)
    as (_ & Hagents & Hstatus & _ & _ & _ & _ & _ & Hin & _); [running|].
  eexists. eexists. split; [running|].
  split; [exact Hstatus|]. split; [exact Hagents|].
  exact (proj1 (Hin Sample.u1 eq_refl)).
Defined.

Lemma updateQueryStatus_frame_witness :
  exists qw',
    user (base Sample.qworld1) = Some Sample.u1 /\
    updateQueryStatus (js "q1") completed (Some tt) Sample.qworld1 = (Ok tt, qw') /\
    queriesStorage qw' !! queries_key Sample.u1 = Some (queries qw').
Proof.
  edestruct (updateQueryStatus_frame (js "q1") completed (Some tt) Sample.qworld1)
    as (_ & Hst); [running | running |].
  eexists. split; [running|]. split; [running | exact Hst].
Defined.
